(** * The handshake manager of src/core/lib/channel/handshaker.c

    A shallow embedding of the handshake manager: the manager struct, the
    handshaker args, and every function of the file, written as programs of a
    small state-and-fault monad over a world that holds the manager, the args
    record and the log of calls made to the collaborators (handshaker vtable,
    timer, exec_ctx, allocator, mutex). *)

From Stdlib Require Import ZArith Lia Bool.
From stdpp Require Import base tactics option list numbers.

Local Open Scope Z_scope.

(** ** Machine integers: size_t on an LP64 target *)

Definition SIZE_BITS : Z := 64.
Definition SIZE_MOD : Z := 2 ^ SIZE_BITS.

(** sizeof(grpc_handshaker* ) *)
Definition sizeof_ptr : Z := 8.

Definition size_wrap (n : Z) : Z := n mod SIZE_MOD.
Definition size_add (a b : Z) : Z := size_wrap (a + b).
Definition size_sub (a b : Z) : Z := size_wrap (a - b).
Definition size_mul (a b : Z) : Z := size_wrap (a * b).

(** static bool is_power_of_2(size_t n) { return (n & (n - 1)) == 0; } *)
Definition is_power_of_2 (n : Z) : bool :=
  Z.land n (size_sub n 1) =? 0.

(** ** Pointers, errors, closures *)

(** A void* as the file uses it: null, the manager, the args record, or an
    address the manager never looks behind. *)
Inductive void_ptr :=
| NULL
| ptr_mgr
| ptr_args
| ptr_opaque (a : Z).

(** grpc_handshaker*: the address of a handshaker object.  Its vtable is
    outside this file; calls through it are logged. *)
Definition grpc_handshaker := Z.
Definition grpc_endpoint := Z.
Definition grpc_tcp_server_acceptor := Z.
Definition grpc_channel_args := list (Z * Z).
Definition grpc_slice_buffer := list Z.
Definition gpr_timespec := Z.

(** Modelled from the spec: the error value of iomgr/error.h, which is not
    part of the sources.  "an error value (none on success)"; a stage error
    is an opaque domain-specific value. *)
Inductive grpc_error :=
| GRPC_ERROR_NONE
| GRPC_ERROR (code : Z).

(** Modelled from the spec: GRPC_ERROR_REF of iomgr/error.h takes one more
    reference on the error and yields the same error ("the current error
    (propagated, not swallowed)"). *)
Definition GRPC_ERROR_REF (e : grpc_error) : grpc_error := e.

Definition grpc_error_is_none (e : grpc_error) : bool :=
  match e with GRPC_ERROR_NONE => true | GRPC_ERROR _ => false end.

(** grpc_iomgr_cb_func: the two callbacks of this file, or a caller's. *)
Inductive grpc_iomgr_cb_func :=
| cb_null
| cb_call_next_handshaker
| cb_on_timeout
| cb_caller (f : Z).

Record grpc_closure := Closure {
  cb : grpc_iomgr_cb_func;
  cb_arg : void_ptr;
}.

(** Modelled from the spec: the timer of iomgr/timer.h, "arm(deadline,
    callback, context), cancel(timer)"; only what the manager's struct
    remembers of it. *)
Inductive grpc_timer :=
| timer_zero
| timer_armed (deadline : gpr_timespec) (c : grpc_closure)
| timer_cancelled.

Definition cancelled (tm : grpc_timer) : grpc_timer :=
  match tm with
  | timer_armed _ _ => timer_cancelled
  | other => other
  end.

(** ** The two records *)

Module Args.
Record t := Build {
  endpoint : grpc_endpoint;
  args : grpc_channel_args;
  read_buffer : grpc_slice_buffer;
  user_data : void_ptr;
}.
Definition set_user_data (v : void_ptr) (a : t) : t :=
  Build (endpoint a) (args a) (read_buffer a) v.
End Args.
Definition grpc_handshaker_args := Args.t.

Module Mgr.
Record t := Build {
  refs : Z;
  count : Z;
  (* the block behind the handshakers pointer: one slot per allocated
     element, None for a slot never written; [] is the null pointer *)
  handshakers : list (option grpc_handshaker);
  index : Z;
  call_next_handshaker : grpc_closure;
  acceptor : grpc_tcp_server_acceptor;
  deadline_timer : grpc_timer;
  on_handshake_done : grpc_closure;
  user_data : void_ptr;
}.

Definition set_refs (v : Z) (m : t) : t :=
  Build v (count m) (handshakers m) (index m) (call_next_handshaker m)
        (acceptor m) (deadline_timer m) (on_handshake_done m) (user_data m).
Definition set_count (v : Z) (m : t) : t :=
  Build (refs m) v (handshakers m) (index m) (call_next_handshaker m)
        (acceptor m) (deadline_timer m) (on_handshake_done m) (user_data m).
Definition set_handshakers (v : list (option grpc_handshaker)) (m : t) : t :=
  Build (refs m) (count m) v (index m) (call_next_handshaker m)
        (acceptor m) (deadline_timer m) (on_handshake_done m) (user_data m).
Definition set_index (v : Z) (m : t) : t :=
  Build (refs m) (count m) (handshakers m) v (call_next_handshaker m)
        (acceptor m) (deadline_timer m) (on_handshake_done m) (user_data m).
Definition set_call_next_handshaker (v : grpc_closure) (m : t) : t :=
  Build (refs m) (count m) (handshakers m) (index m) v
        (acceptor m) (deadline_timer m) (on_handshake_done m) (user_data m).
Definition set_acceptor (v : grpc_tcp_server_acceptor) (m : t) : t :=
  Build (refs m) (count m) (handshakers m) (index m) (call_next_handshaker m)
        v (deadline_timer m) (on_handshake_done m) (user_data m).
Definition set_deadline_timer (v : grpc_timer) (m : t) : t :=
  Build (refs m) (count m) (handshakers m) (index m) (call_next_handshaker m)
        (acceptor m) v (on_handshake_done m) (user_data m).
Definition set_on_handshake_done (v : grpc_closure) (m : t) : t :=
  Build (refs m) (count m) (handshakers m) (index m) (call_next_handshaker m)
        (acceptor m) (deadline_timer m) v (user_data m).
Definition set_user_data (v : void_ptr) (m : t) : t :=
  Build (refs m) (count m) (handshakers m) (index m) (call_next_handshaker m)
        (acceptor m) (deadline_timer m) (on_handshake_done m) v.

(** memset(mgr, 0, sizeof( *mgr)) *)
Definition zero : t :=
  Build 0 0 [] 0 (Closure cb_null NULL) 0 timer_zero (Closure cb_null NULL) NULL.
End Mgr.
Definition grpc_handshake_manager := Mgr.t.

(** ** The log of calls that leave the file *)

(** A call that receives the args pointer is logged with the args record as
    it stands at the call.  The calls on the mutex are logged like the
    others; the mutex itself is not modelled. *)
Inductive event :=
| ev_mu_init
| ev_mu_lock
| ev_mu_unlock
| ev_mu_destroy
| ev_malloc_mgr
| ev_realloc_handshakers (bytes : Z)
| ev_free_handshakers
| ev_free_mgr
| ev_handshaker_destroy (h : grpc_handshaker)
| ev_handshaker_shutdown (h : grpc_handshaker)
| ev_handshaker_do_handshake (h : grpc_handshaker)
    (acceptor : grpc_tcp_server_acceptor) (on_handshake_done : grpc_closure)
    (args : grpc_handshaker_args)
| ev_timer_init (deadline : gpr_timespec) (c : grpc_closure)
| ev_timer_cancel
| ev_exec_ctx_sched (c : grpc_closure) (error : grpc_error)
    (args : grpc_handshaker_args).

(** ** The world and the monad *)

(** One manager and one args record.  heap_mgr is None before create and
    once the manager is freed; heap_args is the record that do_handshake
    allocated last; trace is the log, oldest call first. *)
Record world := World {
  heap_mgr : option grpc_handshake_manager;
  heap_args : option grpc_handshaker_args;
  trace : list event;
}.

Definition empty_world : world := World None None [].

(** The ways a run can go wrong: a failed GPR_ASSERT aborts; the others
    are accesses that C leaves undefined. *)
Inductive fault :=
| AssertionFailed
| OutOfBounds
| UninitializedRead
| UseAfterFree
| BadPointer.

Inductive result (A : Type) :=
| Ok (a : A) (w : world)
| Crash (f : fault).
Arguments Ok {A} a w.
Arguments Crash {A} f.

Definition M (A : Type) : Type := world -> result A.

Definition ret {A} (a : A) : M A := fun w => Ok a w.
Definition bind {A B} (c : M A) (k : A -> M B) : M B :=
  fun w => match c w with Ok a w' => k a w' | Crash f => Crash f end.
Definition crash {A} (f : fault) : M A := fun _ => Crash f.

Notation "'let*' x ':=' c 'in' k" := (bind c (fun x => k))
  (at level 10, x name, c at level 100, k at level 200).
Notation "c ';;;' k" := (bind c (fun _ => k))
  (at level 100, k at level 200, right associativity).

Definition emit (e : event) : M unit :=
  fun w => Ok tt (World (heap_mgr w) (heap_args w) (trace w ++ [e])).

(** Reading and writing through the manager pointer. *)
Definition load_mgr : M grpc_handshake_manager :=
  fun w => match heap_mgr w with
           | Some m => Ok m w
           | None => Crash UseAfterFree
           end.
Definition update_mgr (f : grpc_handshake_manager -> grpc_handshake_manager)
  : M unit :=
  fun w => match heap_mgr w with
           | Some m => Ok tt (World (Some (f m)) (heap_args w) (trace w))
           | None => Crash UseAfterFree
           end.

(** Reading and writing through the args pointer. *)
Definition load_args : M grpc_handshaker_args :=
  fun w => match heap_args w with
           | Some a => Ok a w
           | None => Crash UseAfterFree
           end.
Definition store_args (a : grpc_handshaker_args) : M unit :=
  fun w => Ok tt (World (heap_mgr w) (Some a) (trace w)).

Definition GPR_ASSERT (b : bool) : M unit :=
  if b then ret tt else crash AssertionFailed.

(** ** Collaborators: every call is logged, in call order *)

Definition gpr_mu_init : M unit := emit ev_mu_init.
Definition gpr_mu_lock : M unit := emit ev_mu_lock.
Definition gpr_mu_unlock : M unit := emit ev_mu_unlock.
Definition gpr_mu_destroy : M unit := emit ev_mu_destroy.

(** Modelled from the spec: gpr_ref and gpr_unref of support/sync.h, which
    are not part of the sources.  "created with refcount 1 ... destroyed
    ... when the refcount reaches zero": gpr_unref tells whether it took
    the last reference. *)
Definition gpr_ref_init (n : Z) : M unit := update_mgr (Mgr.set_refs n).
Definition gpr_ref : M unit :=
  update_mgr (fun m => Mgr.set_refs (Mgr.refs m + 1) m).
Definition gpr_unref : M bool :=
  let* mgr := load_mgr in
  update_mgr (Mgr.set_refs (Mgr.refs mgr - 1)) ;;;
  ret (Mgr.refs mgr =? 1).

(** gpr_malloc(sizeof(grpc_handshake_manager)) followed by the memset *)
Definition gpr_malloc_mgr : M unit :=
  fun w => Ok tt (World (Some Mgr.zero) (heap_args w)
                        (trace w ++ [ev_malloc_mgr])).

(** gpr_free(mgr) *)
Definition gpr_free_mgr : M unit :=
  fun w => Ok tt (World None (heap_args w) (trace w ++ [ev_free_mgr])).

(** gpr_realloc(mgr->handshakers, bytes): the block keeps its old slots, as
    many as fit, and has room for bytes / sizeof(grpc_handshaker* ) of
    them. *)
Definition gpr_realloc_handshakers (bytes : Z) : M unit :=
  emit (ev_realloc_handshakers bytes) ;;;
  update_mgr (fun m =>
    Mgr.set_handshakers
      (resize (Z.to_nat (bytes / sizeof_ptr)) None (Mgr.handshakers m)) m).

(** gpr_free(mgr->handshakers) *)
Definition gpr_free_handshakers : M unit :=
  emit ev_free_handshakers ;;;
  update_mgr (Mgr.set_handshakers []).

(** mgr->handshakers[i], read *)
Definition load_handshaker (i : Z) : M grpc_handshaker :=
  let* mgr := load_mgr in
  match Mgr.handshakers mgr !! Z.to_nat i with
  | Some (Some h) => ret h
  | Some None => crash UninitializedRead
  | None => crash OutOfBounds
  end.

(** mgr->handshakers[i] = h *)
Definition store_handshaker (i : Z) (h : grpc_handshaker) : M unit :=
  let* mgr := load_mgr in
  if i <? Z.of_nat (length (Mgr.handshakers mgr)) then
    update_mgr (Mgr.set_handshakers
                  (<[Z.to_nat i := Some h]> (Mgr.handshakers mgr)))
  else crash OutOfBounds.

(** Modelled from the spec: grpc_channel_args_copy of channel_args.h, "a
    private copy at chain start": a copy has the contents of the original. *)
Definition grpc_channel_args_copy (a : grpc_channel_args) : grpc_channel_args :=
  a.

Definition grpc_timer_init (deadline : gpr_timespec) (c : grpc_closure)
  : M unit :=
  emit (ev_timer_init deadline c) ;;;
  update_mgr (Mgr.set_deadline_timer (timer_armed deadline c)).

Definition grpc_timer_cancel : M unit :=
  emit ev_timer_cancel ;;;
  update_mgr (fun m =>
    Mgr.set_deadline_timer (cancelled (Mgr.deadline_timer m)) m).

(** grpc_exec_ctx_sched(exec_ctx, closure, error, NULL): the closure is
    queued, not run; the log keeps the args as they stand at that point.
    The code queues the address of the manager's closure; the log keeps
    what the closure holds at the call. *)
Definition grpc_exec_ctx_sched (c : grpc_closure) (error : grpc_error)
  : M unit :=
  let* a := load_args in
  emit (ev_exec_ctx_sched c error a).

(** ** grpc_handshaker *)

Definition grpc_handshaker_destroy (handshaker : grpc_handshaker) : M unit :=
  emit (ev_handshaker_destroy handshaker).

Definition grpc_handshaker_shutdown (handshaker : grpc_handshaker) : M unit :=
  emit (ev_handshaker_shutdown handshaker).

Definition grpc_handshaker_do_handshake (handshaker : grpc_handshaker)
    (acceptor : grpc_tcp_server_acceptor) (on_handshake_done : grpc_closure)
  : M unit :=
  let* a := load_args in
  emit (ev_handshaker_do_handshake handshaker acceptor on_handshake_done a).

(** ** grpc_handshake_manager *)

Definition grpc_handshake_manager_create : M unit :=
  gpr_malloc_mgr ;;;
  gpr_mu_init ;;;
  gpr_ref_init 1.

(** The local realloc_count of grpc_handshake_manager_add, as the two
    branches leave it for a manager that holds [count] handshakers. *)
Definition realloc_count_for (count : Z) : Z :=
  if count =? 0 then 2
  else if (2 <=? count) && is_power_of_2 count
       then size_mul count 2
       else 0.

Definition grpc_handshake_manager_add (handshaker : grpc_handshaker) : M unit :=
  gpr_mu_lock ;;;
  let* mgr := load_mgr in
  let realloc_count := realloc_count_for (Mgr.count mgr) in
  (if 0 <? realloc_count
   then gpr_realloc_handshakers (size_mul realloc_count sizeof_ptr)
   else ret tt) ;;;
  store_handshaker (Mgr.count mgr) handshaker ;;;
  update_mgr (Mgr.set_count (size_add (Mgr.count mgr) 1)) ;;;
  gpr_mu_unlock.

(** for (size_t i = 0; i < mgr->count; ++i) body(mgr->handshakers[i]);
    the body never writes the count, so the loop runs count times. *)
Fixpoint for_handshakers (n : nat) (i : Z) (body : grpc_handshaker -> M unit)
  : M unit :=
  match n with
  | O => ret tt
  | S n' =>
      let* h := load_handshaker i in
      body h ;;;
      for_handshakers n' (size_add i 1) body
  end.

Definition grpc_handshake_manager_unref : M unit :=
  let* last := gpr_unref in
  if last then
    let* mgr := load_mgr in
    for_handshakers (Z.to_nat (Mgr.count mgr)) 0 grpc_handshaker_destroy ;;;
    gpr_free_handshakers ;;;
    gpr_mu_destroy ;;;
    gpr_free_mgr
  else ret tt.

Definition grpc_handshake_manager_destroy : M unit :=
  grpc_handshake_manager_unref.

Definition grpc_handshake_manager_shutdown : M unit :=
  gpr_mu_lock ;;;
  let* mgr := load_mgr in
  for_handshakers (Z.to_nat (Mgr.count mgr)) 0 grpc_handshaker_shutdown ;;;
  gpr_mu_unlock.

Definition args_set_user_data (p : void_ptr) : M unit :=
  let* a := load_args in
  store_args (Args.set_user_data p a).

Definition call_next_handshaker_locked (error : grpc_error) : M unit :=
  let* mgr := load_mgr in
  GPR_ASSERT (Mgr.index mgr <=? Mgr.count mgr) ;;;
  if negb (grpc_error_is_none error) || (Mgr.index mgr =? Mgr.count mgr) then
    grpc_timer_cancel ;;;
    args_set_user_data (Mgr.user_data mgr) ;;;
    grpc_exec_ctx_sched (Mgr.on_handshake_done mgr) (GRPC_ERROR_REF error) ;;;
    grpc_handshake_manager_unref
  else
    let* h := load_handshaker (Mgr.index mgr) in
    grpc_handshaker_do_handshake h (Mgr.acceptor mgr)
                                 (Mgr.call_next_handshaker mgr) ;;;
    update_mgr (fun m => Mgr.set_index (size_add (Mgr.index m) 1) m).

(** The cast of a void* to the type its user expects. *)
Definition as_args (p : void_ptr) : M unit :=
  match p with ptr_args => ret tt | _ => crash BadPointer end.
Definition as_mgr (p : void_ptr) : M unit :=
  match p with ptr_mgr => ret tt | _ => crash BadPointer end.

Definition call_next_handshaker (arg : void_ptr) (error : grpc_error) : M unit :=
  as_args arg ;;;
  let* a := load_args in
  as_mgr (Args.user_data a) ;;;
  gpr_mu_lock ;;;
  call_next_handshaker_locked error ;;;
  gpr_mu_unlock.

Definition on_timeout (arg : void_ptr) (error : grpc_error) : M unit :=
  as_mgr arg ;;;
  (if grpc_error_is_none error
   then grpc_handshake_manager_shutdown
   else ret tt) ;;;
  grpc_handshake_manager_unref.

Definition grpc_handshake_manager_do_handshake
    (endpoint : grpc_endpoint) (channel_args : grpc_channel_args)
    (deadline : gpr_timespec) (acceptor : grpc_tcp_server_acceptor)
    (on_handshake_done : grpc_iomgr_cb_func) (user_data : void_ptr) : M unit :=
  store_args (Args.Build endpoint (grpc_channel_args_copy channel_args) [] NULL) ;;;
  gpr_mu_lock ;;;
  let* mgr := load_mgr in
  GPR_ASSERT (Mgr.index mgr =? 0) ;;;
  update_mgr (Mgr.set_acceptor acceptor) ;;;
  update_mgr (Mgr.set_call_next_handshaker
                (Closure cb_call_next_handshaker ptr_args)) ;;;
  update_mgr (Mgr.set_on_handshake_done (Closure on_handshake_done ptr_args)) ;;;
  args_set_user_data ptr_mgr ;;;
  update_mgr (Mgr.set_user_data user_data) ;;;
  gpr_ref ;;;
  grpc_timer_init deadline (Closure cb_on_timeout ptr_mgr) ;;;
  gpr_ref ;;;
  call_next_handshaker_locked GRPC_ERROR_NONE ;;;
  gpr_mu_unlock.

(** ** Drivers: runs of calls, in the order the caller makes them *)

Fixpoint add_all (hs : list grpc_handshaker) : M unit :=
  match hs with
  | [] => ret tt
  | h :: hs' => grpc_handshake_manager_add h ;;; add_all hs'
  end.

(** The handshakers that were started report, one after the other, through
    the closure they were handed: call_next_handshaker on the args. *)
Fixpoint report_all (errors : list grpc_error) : M unit :=
  match errors with
  | [] => ret tt
  | e :: rest => call_next_handshaker ptr_args e ;;; report_all rest
  end.

(** ** Reading a log *)

Definition started_of (e : event) : option grpc_handshaker :=
  match e with ev_handshaker_do_handshake h _ _ _ => Some h | _ => None end.
Definition scheduled_of (e : event) : option (grpc_closure * grpc_error) :=
  match e with ev_exec_ctx_sched c err _ => Some (c, err) | _ => None end.

(** The handshakers started, in order. *)
Definition started (t : list event) : list grpc_handshaker :=
  omap started_of t.
(** The closures handed to the exec_ctx, in order, with their errors. *)
Definition scheduled (t : list event) : list (grpc_closure * grpc_error) :=
  omap scheduled_of t.

(** The user_data of the args handed to the handshakers, in order. *)
Definition chained_user_data (t : list event) : list void_ptr :=
  omap (fun ev => match ev with
                  | ev_handshaker_do_handshake _ _ _ a => Some (Args.user_data a)
                  | _ => None
                  end) t.
(** The user_data of the args the scheduled closures find, in order. *)
Definition terminal_user_data (t : list event) : list void_ptr :=
  omap (fun ev => match ev with
                  | ev_exec_ctx_sched _ _ a => Some (Args.user_data a)
                  | _ => None
                  end) t.

(** The handshakers told to shut down, in order. *)
Definition shut_down (t : list event) : list grpc_handshaker :=
  omap (fun ev => match ev with
                  | ev_handshaker_shutdown h => Some h
                  | _ => None
                  end) t.

(** The sizes handed to gpr_realloc, in order. *)
Definition reallocs (t : list event) : list Z :=
  omap (fun ev => match ev with
                  | ev_realloc_handshakers bytes => Some bytes
                  | _ => None
                  end) t.

Definition is_teardown (ev : event) : bool :=
  match ev with
  | ev_handshaker_destroy _ | ev_free_handshakers | ev_mu_destroy | ev_free_mgr => true
  | _ => false
  end.

(** The teardown calls in a log, in order. *)
Definition teardown (t : list event) : list event :=
  omap (fun ev => if is_teardown ev then Some ev else None) t.

(** How many elements of a list pass a test. *)
Fixpoint tally {A} (p : A -> bool) (l : list A) : Z :=
  match l with
  | [] => 0
  | x :: rest => (if p x then 1 else 0) + tally p rest
  end.

Definition is_start (ev : event) : bool :=
  match ev with ev_handshaker_do_handshake _ _ _ _ => true | _ => false end.
Definition is_sched (ev : event) : bool :=
  match ev with ev_exec_ctx_sched _ _ _ => true | _ => false end.
Definition is_timer_init (ev : event) : bool :=
  match ev with ev_timer_init _ _ => true | _ => false end.

(** ** The handshakers a manager holds, and the room it has for them *)

(** The manager holds exactly the handshakers hs, in this order. *)
Definition registered (hs : list grpc_handshaker) (m : grpc_handshake_manager)
  : Prop :=
  Mgr.count m = Z.of_nat (length hs) /\
  Z.of_nat (length hs) < SIZE_MOD /\
  forall (i : nat) h, hs !! i = Some h ->
                      Mgr.handshakers m !! i = Some (Some h).

(** The number of slots behind the handshakers pointer. *)
Definition capacity (m : grpc_handshake_manager) : Z :=
  Z.of_nat (length (Mgr.handshakers m)).

(** An exact power of two. *)
Definition power_of_two (c : Z) : Prop := exists k, 0 <= k /\ c = 2 ^ k.

(** The capacity the specification gives a manager filled by add alone:
    nothing before the first add, 2 after it, and from then on the smallest
    power of two that is no less than the count. *)
Definition capacity_after (n : Z) : Z :=
  if n =? 0 then 0 else if n =? 1 then 2 else 2 ^ Z.log2_up n.

(** The counts up to which doubling the array gives a size in bytes that a
    size_t can hold; an array of more handshakers cannot be allocated. *)
Definition ADDRESSABLE_HANDSHAKERS : Z := SIZE_MOD / (2 * sizeof_ptr).

(** The manager holds hs and its array is as add alone sizes it. *)
Definition allocated (hs : list grpc_handshaker) (m : grpc_handshake_manager)
  : Prop :=
  registered hs m /\ capacity m = capacity_after (Z.of_nat (length hs)).

(** The array as add leaves it before it writes the new slot. *)
Definition grown (m : grpc_handshake_manager) : list (option grpc_handshaker) :=
  if 0 <? realloc_count_for (Mgr.count m)
  then resize (Z.to_nat (size_mul (realloc_count_for (Mgr.count m)) sizeof_ptr
                         / sizeof_ptr))
              None (Mgr.handshakers m)
  else Mgr.handshakers m.

(** ** What each operation says to the collaborators, and leaves behind *)

(** The events of one add on a manager that holds [count] handshakers. *)
Definition add_events (count : Z) : list event :=
  [ev_mu_lock]
    ++ (if 0 <? realloc_count_for count
        then [ev_realloc_handshakers
                (size_mul (realloc_count_for count) sizeof_ptr)]
        else [])
    ++ [ev_mu_unlock].

(** The events of grpc_handshake_manager_shutdown. *)
Definition shutdown_events (hs : list grpc_handshaker) : list event :=
  [ev_mu_lock] ++ map ev_handshaker_shutdown hs ++ [ev_mu_unlock].

(** The events of the grpc_handshake_manager_unref that takes the last
    reference. *)
Definition destroy_events (hs : list grpc_handshaker) : list event :=
  map ev_handshaker_destroy hs ++ [ev_free_handshakers; ev_mu_destroy; ev_free_mgr].

(** The manager once the advance step has cancelled the timer. *)
Definition at_terminal (m : grpc_handshake_manager) : grpc_handshake_manager :=
  Mgr.set_deadline_timer (cancelled (Mgr.deadline_timer m)) m.

(** The events of the terminal condition, up to the release of the chain's
    reference. *)
Definition terminal_events (m : grpc_handshake_manager)
    (a : grpc_handshaker_args) (e : grpc_error) : list event :=
  [ev_timer_cancel;
   ev_exec_ctx_sched (Mgr.on_handshake_done m) e
                     (Args.set_user_data (Mgr.user_data m) a)].

(** The events of one report of success while handshakers remain: the next
    one starts. *)
Definition advance_events (m : grpc_handshake_manager)
    (a : grpc_handshaker_args) (h : grpc_handshaker) : list event :=
  [ev_mu_lock;
   ev_handshaker_do_handshake h (Mgr.acceptor m) (Mgr.call_next_handshaker m) a;
   ev_mu_unlock].

(** The manager as do_handshake has set it up when it enters the chain. *)
Definition chain_start (m : grpc_handshake_manager)
    (deadline : gpr_timespec) (acceptor : grpc_tcp_server_acceptor)
    (on_done : grpc_iomgr_cb_func) (user_data : void_ptr)
  : grpc_handshake_manager :=
  Mgr.Build (Mgr.refs m + 1 + 1) (Mgr.count m) (Mgr.handshakers m) (Mgr.index m)
            (Closure cb_call_next_handshaker ptr_args) acceptor
            (timer_armed deadline (Closure cb_on_timeout ptr_mgr))
            (Closure on_done ptr_args) user_data.

(** The args record while the chain runs. *)
Definition chain_args (endpoint : grpc_endpoint)
    (channel_args : grpc_channel_args) : grpc_handshaker_args :=
  Args.Build endpoint channel_args [] ptr_mgr.

(** The manager when the chain has ended after [started] handshakers. *)
Definition chain_end (m : grpc_handshake_manager)
    (deadline : gpr_timespec) (acceptor : grpc_tcp_server_acceptor)
    (on_done : grpc_iomgr_cb_func) (user_data : void_ptr) (started : Z)
  : grpc_handshake_manager :=
  Mgr.Build (Mgr.refs m + 1) (Mgr.count m) (Mgr.handshakers m) started
            (Closure cb_call_next_handshaker ptr_args) acceptor
            timer_cancelled (Closure on_done ptr_args) user_data.

(** The whole log of a chain that started the handshakers [run] and ended
    with the error [e]. *)
Definition chain_log (deadline : gpr_timespec)
    (acceptor : grpc_tcp_server_acceptor) (on_done : grpc_iomgr_cb_func)
    (user_data : void_ptr) (a : grpc_handshaker_args)
    (run : list grpc_handshaker) (e : grpc_error) : list event :=
  [ev_mu_lock; ev_timer_init deadline (Closure cb_on_timeout ptr_mgr)] ++
  match run with
  | [] => []
  | h0 :: rest =>
      [ev_handshaker_do_handshake h0 acceptor
         (Closure cb_call_next_handshaker ptr_args) a; ev_mu_unlock] ++
      flat_map (fun h =>
        [ev_mu_lock;
         ev_handshaker_do_handshake h acceptor
           (Closure cb_call_next_handshaker ptr_args) a;
         ev_mu_unlock]) rest ++
      [ev_mu_lock]
  end ++
  [ev_timer_cancel;
   ev_exec_ctx_sched (Closure on_done ptr_args) e (Args.set_user_data user_data a);
   ev_mu_unlock].

(** The reports of a chain over hs that runs to its end: none when no
    handshaker is registered; else successes while handshakers remain, and
    a last report that is an error or comes from the last handshaker. *)
Definition chain_reports (hs : list grpc_handshaker)
    (errors : list grpc_error) : Prop :=
  match hs with
  | [] => errors = []
  | _ :: hs' =>
      exists (k : nat) e,
        errors = repeat GRPC_ERROR_NONE k ++ [e] /\
        (k <= length hs')%nat /\
        (e <> GRPC_ERROR_NONE \/ k = length hs')
  end.

(** ** The manager among its users

    The caller adds handshakers, starts the handshake, shuts down and
    destroys; a handshaker that was started reports through the closure it
    was handed (call_next_handshaker on the args); the timer calls the
    callback it was armed with (on_timeout on the manager), with no error
    when it fired and with an error when it was cancelled. *)

Inductive action :=
| act_add (h : grpc_handshaker)
| act_do_handshake (endpoint : grpc_endpoint) (channel_args : grpc_channel_args)
    (deadline : gpr_timespec) (acceptor : grpc_tcp_server_acceptor)
    (on_handshake_done : grpc_iomgr_cb_func) (user_data : void_ptr)
| act_shutdown
| act_destroy
| act_report (e : grpc_error)
| act_timer (e : grpc_error).

Definition perform (a : action) : M unit :=
  match a with
  | act_add h => grpc_handshake_manager_add h
  | act_do_handshake ep ca dl acc cbk ud =>
      grpc_handshake_manager_do_handshake ep ca dl acc cbk ud
  | act_shutdown => grpc_handshake_manager_shutdown
  | act_destroy => grpc_handshake_manager_destroy
  | act_report e => call_next_handshaker ptr_args e
  | act_timer e => on_timeout ptr_mgr e
  end.

Definition is_report (a : action) : bool :=
  match a with act_report _ => true | _ => false end.
Definition is_timer (a : action) : bool :=
  match a with act_timer _ => true | _ => false end.
Definition is_do_handshake (a : action) : bool :=
  match a with act_do_handshake _ _ _ _ _ _ => true | _ => false end.
Definition is_destroy (a : action) : bool :=
  match a with act_destroy => true | _ => false end.

(** The handshakers the caller has added, in order. *)
Definition added (acts : list action) : list grpc_handshaker :=
  omap (fun a => match a with act_add h => Some h | _ => None end) acts.

(** The three owners of references.  The caller owns one until it calls
    destroy; the timer owns one for every time it was armed and has not
    called back; the chain owns one while a handshaker that was started
    has not reported. *)
Definition caller_ref (acts : list action) : Z :=
  if tally is_destroy acts =? 0 then 1 else 0.
Definition timer_refs (acts : list action) (t : list event) : Z :=
  tally is_timer_init t - tally is_timer acts.
Definition chain_ref (acts : list action) (t : list event) : Z :=
  tally is_start t - tally is_report acts.

(** What the users may do next.  The caller uses the manager only while it
    holds its reference, calls do_handshake only with the cursor at 0 (the
    assertion of do_handshake) and adds only while the array can still be
    doubled; a handshaker reports once for each time it was started; the
    timer calls back once for each time it was armed. *)
Definition enabled (a : action) (acts : list action) (w : world) : bool :=
  match a with
  | act_add _ =>
      (tally is_destroy acts =? 0) &&
      match heap_mgr w with
      | Some m => Mgr.count m <? ADDRESSABLE_HANDSHAKERS
      | None => false
      end
  | act_do_handshake _ _ _ _ _ _ =>
      (tally is_destroy acts =? 0) &&
      match heap_mgr w with
      | Some m => Mgr.index m =? 0
      | None => false
      end
  | act_shutdown | act_destroy => tally is_destroy acts =? 0
  | act_report _ => 0 <? chain_ref acts (trace w)
  | act_timer _ => 0 <? timer_refs acts (trace w)
  end.

(** The worlds the users can bring about, from create on, with what they
    did to get there. *)
Inductive reachable : list action -> world -> Prop :=
| reach_create w :
    grpc_handshake_manager_create empty_world = Ok tt w ->
    reachable [] w
| reach_step acts w a w' :
    reachable acts w ->
    enabled a acts w = true ->
    perform a w = Ok tt w' ->
    reachable (acts ++ [a]) w'.

(** What holds of every such world. *)
Record invariant (acts : list action) (w : world) : Prop := Invariant {
  inv_chain : 0 <= chain_ref acts (trace w) <= 1;
  inv_timer : 0 <= timer_refs acts (trace w);
  inv_sched :
    tally is_sched (trace w) + chain_ref acts (trace w) = tally is_do_handshake acts;
  inv_armed : tally is_timer_init (trace w) = tally is_do_handshake acts;
  inv_added : Z.of_nat (length (added acts)) <= ADDRESSABLE_HANDSHAKERS;
  inv_heap :
    match heap_mgr w with
    | Some m =>
        allocated (added acts) m /\
        0 <= Mgr.index m <= Mgr.count m /\
        (chain_ref acts (trace w) = 1 -> 1 <= Mgr.index m) /\
        Mgr.refs m = caller_ref acts + timer_refs acts (trace w) + chain_ref acts (trace w) /\
        1 <= Mgr.refs m /\
        (chain_ref acts (trace w) = 1 ->
         exists a, heap_args w = Some a /\ Args.user_data a = ptr_mgr) /\
        teardown (trace w) = []
    | None =>
        caller_ref acts + timer_refs acts (trace w) + chain_ref acts (trace w) = 0 /\
        teardown (trace w) = destroy_events (added acts)
    end;
}.

(** What one enabled action does to a world that satisfies the invariant. *)
Definition step_ok (acts : list action) (m : grpc_handshake_manager)
    (ha : option grpc_handshaker_args) (t : list event) (a : action) : Prop :=
  exists w',
    perform a (World (Some m) ha t) = Ok tt w' /\
    invariant (acts ++ [a]) w' /\
    forall m', heap_mgr w' = Some m' ->
               Mgr.index m <= Mgr.index m' /\ Mgr.count m <= Mgr.count m'.

(** The one action that makes call_next_handshaker unlock the mutex of a
    manager it has just freed: a report that ends the chain (an error, or
    no handshaker left) while the chain holds the last reference.  The
    unlock is a call on freed memory; the log shows it after the free. *)
Definition releases_last_under_lock (a : action)
    (m : grpc_handshake_manager) : bool :=
  match a with
  | act_report e =>
      (negb (grpc_error_is_none e) || (Mgr.index m =? Mgr.count m))
      && (Mgr.refs m =? 1)
  | _ => false
  end.

(** ** Managers and runs to evaluate things on *)

(** create, then add 10, 11 and 12 *)
Definition demo_mgr : grpc_handshake_manager :=
  Eval cbv in
    match (grpc_handshake_manager_create ;;; add_all [10; 11; 12]) empty_world with
    | Ok _ w => default Mgr.zero (heap_mgr w)
    | Crash _ => Mgr.zero
    end.

(** create alone *)
Definition demo_mgr_empty : grpc_handshake_manager :=
  Eval cbv in
    match grpc_handshake_manager_create empty_world with
    | Ok _ w => default Mgr.zero (heap_mgr w)
    | Crash _ => Mgr.zero
    end.

(** One handshaker is added and started, the caller shuts down, the
    handshaker reports success, the timer calls back cancelled, the caller
    destroys the manager. *)
Definition demo_acts : list action :=
  ((((([] ++ [act_add 10])
        ++ [act_do_handshake 7 [(1, 2)] 5 0 (cb_caller 1) (ptr_opaque 99)])
       ++ [act_shutdown])
      ++ [act_report GRPC_ERROR_NONE])
     ++ [act_timer (GRPC_ERROR 1)])
    ++ [act_destroy].

Definition demo_world : world :=
  Eval cbv in
    match (grpc_handshake_manager_create ;;;
           grpc_handshake_manager_add 10 ;;;
           grpc_handshake_manager_do_handshake 7 [(1, 2)] 5 0 (cb_caller 1)
                                               (ptr_opaque 99) ;;;
           grpc_handshake_manager_shutdown ;;;
           call_next_handshaker ptr_args GRPC_ERROR_NONE ;;;
           on_timeout ptr_mgr (GRPC_ERROR 1) ;;;
           grpc_handshake_manager_destroy) empty_world with
    | Ok _ w => w
    | Crash _ => empty_world
    end.

(** Two handshakers are added and the handshake is started: the first
    handshaker is in flight. *)
Definition mid_chain_acts : list action :=
  (([] ++ [act_add 10]) ++ [act_add 11])
    ++ [act_do_handshake 7 [(1, 2)] 5 0 (cb_caller 1) (ptr_opaque 99)].

Definition mid_chain_world : world :=
  Eval cbv in
    match (grpc_handshake_manager_create ;;;
           grpc_handshake_manager_add 10 ;;;
           grpc_handshake_manager_add 11 ;;;
           grpc_handshake_manager_do_handshake 7 [(1, 2)] 5 0 (cb_caller 1)
                                               (ptr_opaque 99)) empty_world with
    | Ok _ w => w
    | Crash _ => empty_world
    end.

(** The caller destroys the manager while the handshake runs, the timer
    fires, and the handshaker that was shut down reports an error: the
    chain holds the last reference. *)
Definition late_chain_acts : list action :=
  (((([] ++ [act_add 10])
       ++ [act_do_handshake 7 [(1, 2)] 5 0 (cb_caller 1) (ptr_opaque 99)])
      ++ [act_destroy])
     ++ [act_timer GRPC_ERROR_NONE])
    ++ [act_report (GRPC_ERROR 4)].

Definition late_chain_world : world :=
  Eval cbv in
    match (grpc_handshake_manager_create ;;;
           grpc_handshake_manager_add 10 ;;;
           grpc_handshake_manager_do_handshake 7 [(1, 2)] 5 0 (cb_caller 1)
                                               (ptr_opaque 99) ;;;
           grpc_handshake_manager_destroy ;;;
           on_timeout ptr_mgr GRPC_ERROR_NONE ;;;
           call_next_handshaker ptr_args (GRPC_ERROR 4)) empty_world with
    | Ok _ w => w
    | Crash _ => empty_world
    end.

(** ** Further readings of a log, and the growth of the array *)

(** The acceptor and the closure handed to each handshaker started. *)
Definition handed (t : list event)
  : list (grpc_tcp_server_acceptor * grpc_closure) :=
  omap (fun ev => match ev with
                  | ev_handshaker_do_handshake _ acc c _ => Some (acc, c)
                  | _ => None
                  end) t.

(** The args records that left the manager, to a handshaker or with the
    closure handed to the exec_ctx, in order. *)
Definition args_seen (t : list event) : list grpc_handshaker_args :=
  omap (fun ev => match ev with
                  | ev_handshaker_do_handshake _ _ _ a => Some a
                  | ev_exec_ctx_sched _ _ a => Some a
                  | _ => None
                  end) t.

(** s, 2s, 4s, ...: k sizes, each twice the one before. *)
Fixpoint doubling (s : Z) (k : nat) : list Z :=
  match k with
  | O => []
  | S k' => s :: doubling (2 * s) k'
  end.

(** How often the array has been reallocated when n handshakers were added
    to a fresh manager. *)
Definition realloc_rounds (n : Z) : Z :=
  if n =? 0 then 0 else if n =? 1 then 1 else Z.log2_up n.

(** create, add 10, do_handshake, taken apart: the manager with its only
    handshaker in flight. *)
Definition demo_mgr_last : grpc_handshake_manager :=
  Eval cbv in
    match (grpc_handshake_manager_create ;;;
           grpc_handshake_manager_add 10 ;;;
           grpc_handshake_manager_do_handshake 7 [(1, 2)] 5 0 (cb_caller 1)
                                               (ptr_opaque 99)) empty_world with
    | Ok _ w => default Mgr.zero (heap_mgr w)
    | Crash _ => Mgr.zero
    end.

(** The manager of mid_chain_world: 10 in flight, 11 still to start. *)
Definition demo_mgr_mid : grpc_handshake_manager :=
  Eval cbv in default Mgr.zero (heap_mgr mid_chain_world).

(** * Proofs *)

(** ** size_t arithmetic *)

Lemma size_wrap_small n : 0 <= n < SIZE_MOD -> size_wrap n = n.
Proof. intros H. unfold size_wrap. apply Z.mod_small; exact H. Qed.

Lemma SIZE_MOD_eq : SIZE_MOD = 18446744073709551616.
Proof. reflexivity. Qed.

Lemma land_pred_pow2 k : 0 <= k -> Z.land (2 ^ k) (2 ^ k - 1) = 0.
Proof.
  intros Hk. replace (2 ^ k - 1) with (Z.ones k).
  - rewrite Z.land_ones by lia. apply Z.mod_same. lia.
  - rewrite Z.ones_equiv. lia.
Qed.

Lemma land_pred_not_pow2 n :
  0 < n -> n <> 2 ^ Z.log2 n -> Z.land n (n - 1) <> 0.
Proof.
  intros Hn Hne Hz.
  pose proof (Z.log2_spec n Hn) as [Hlo Hhi].
  pose proof (Z.log2_nonneg n) as Hk.
  assert (Hlog : Z.log2 (n - 1) = Z.log2 n).
  { apply Z.log2_unique; [exact Hk | lia]. }
  assert (Hb : Z.testbit (Z.land n (n - 1)) (Z.log2 n) = true).
  { rewrite Z.land_spec, Z.bit_log2 by lia.
    rewrite <- Hlog. rewrite Z.bit_log2 by lia. reflexivity. }
  rewrite Hz, Z.bits_0 in Hb. discriminate.
Qed.

(** is_power_of_2 tells the powers of two apart from the rest, zero aside. *)
Lemma is_power_of_2_iff n :
  1 <= n < SIZE_MOD ->
  is_power_of_2 n = true <-> exists k, 0 <= k /\ n = 2 ^ k.
Proof.
  intros Hn. unfold is_power_of_2, size_sub.
  rewrite size_wrap_small by lia. rewrite Z.eqb_eq. split.
  - intros Hz. exists (Z.log2 n). split; [apply Z.log2_nonneg |].
    destruct (Z.eq_dec n (2 ^ Z.log2 n)) as [E | E]; [exact E |].
    exfalso. apply (land_pred_not_pow2 n); [lia | exact E | exact Hz].
  - intros (k & Hk & ->). apply land_pred_pow2. exact Hk.
Qed.

Lemma is_power_of_2_zero : is_power_of_2 0 = true.
Proof. reflexivity. Qed.

(** ** The loops over the registered handshakers *)

Lemma for_handshakers_emit (f : grpc_handshaker -> event) rest :
  forall (i : nat) m a t,
    (forall (j : nat) h, rest !! j = Some h ->
                         Mgr.handshakers m !! (i + j)%nat = Some (Some h)) ->
    Z.of_nat (i + length rest) < SIZE_MOD ->
    for_handshakers (length rest) (Z.of_nat i) (fun h => emit (f h))
                    (World (Some m) a t)
    = Ok tt (World (Some m) a (t ++ map f rest)).
Proof.
  induction rest as [| h rest IH]; intros i m a t Hslots Hlt.
  - cbn. rewrite app_nil_r. reflexivity.
  - cbn [length for_handshakers map].
    unfold bind at 1. unfold load_handshaker, bind, load_mgr. cbn.
    rewrite Nat2Z.id.
    pose proof (Hslots 0%nat h eq_refl) as H0.
    rewrite Nat.add_0_r in H0. rewrite H0. cbn.
    replace (size_add (Z.of_nat i) 1) with (Z.of_nat (S i)).
    2:{ unfold size_add. rewrite size_wrap_small; cbn [length] in Hlt; lia. }
    rewrite (IH (S i) m a (t ++ [f h])).
    + rewrite <- app_assoc. reflexivity.
    + intros j h' Hj. replace (S i + j)%nat with (i + S j)%nat by lia.
      apply Hslots. exact Hj.
    + cbn [length] in Hlt. lia.
Qed.

Lemma for_registered (f : grpc_handshaker -> event) hs m n a t :
  registered hs m ->
  n = Mgr.count m ->
  for_handshakers (Z.to_nat n) 0 (fun h => emit (f h)) (World (Some m) a t)
  = Ok tt (World (Some m) a (t ++ map f hs)).
Proof.
  intros (Hc & Hlt & Hslots) ->. rewrite Hc, Nat2Z.id.
  apply (for_handshakers_emit f hs 0%nat); [exact Hslots | cbn; lia].
Qed.

Lemma shutdown_run hs m a t :
  registered hs m ->
  grpc_handshake_manager_shutdown (World (Some m) a t)
  = Ok tt (World (Some m) a (t ++ shutdown_events hs)).
Proof.
  intros Hreg. unfold grpc_handshake_manager_shutdown, bind, gpr_mu_lock,
    gpr_mu_unlock, load_mgr. cbn.
  change grpc_handshaker_shutdown with (fun h => emit (ev_handshaker_shutdown h)).
  rewrite (for_registered ev_handshaker_shutdown hs m _ a _ Hreg eq_refl).
  unfold emit, shutdown_events. cbn. rewrite <- !app_assoc. reflexivity.
Qed.

(** The reference that is not the last one: only the count moves. *)
Lemma unref_run_shared m a t :
  Mgr.refs m <> 1 ->
  grpc_handshake_manager_unref (World (Some m) a t)
  = Ok tt (World (Some (Mgr.set_refs (Mgr.refs m - 1) m)) a t).
Proof.
  intros Hr. unfold grpc_handshake_manager_unref, bind, gpr_unref, bind,
    load_mgr, update_mgr. cbn.
  destruct (Z.eqb_spec (Mgr.refs m) 1) as [E | _]; [contradiction | reflexivity].
Qed.

(** The last reference: everything is torn down, once, in order. *)
Lemma unref_run_last hs m a t :
  registered hs m ->
  Mgr.refs m = 1 ->
  grpc_handshake_manager_unref (World (Some m) a t)
  = Ok tt (World None a (t ++ destroy_events hs)).
Proof.
  intros Hreg Hr. unfold grpc_handshake_manager_unref, bind at 1.
  unfold gpr_unref, bind, load_mgr, update_mgr. cbn.
  rewrite Hr. cbn.
  change grpc_handshaker_destroy with (fun h => emit (ev_handshaker_destroy h)).
  rewrite (for_registered ev_handshaker_destroy hs
             (Mgr.set_refs (1 - 1) m) (Mgr.count m) a t Hreg eq_refl).
  unfold gpr_free_handshakers, gpr_mu_destroy, gpr_free_mgr, bind, emit,
    update_mgr, destroy_events. cbn. rewrite <- !app_assoc. reflexivity.
Qed.

(** ** The advance step *)

Lemma locked_terminal m a t e :
  0 <= Mgr.index m <= Mgr.count m ->
  e <> GRPC_ERROR_NONE \/ Mgr.index m = Mgr.count m ->
  call_next_handshaker_locked e (World (Some m) (Some a) t)
  = grpc_handshake_manager_unref
      (World (Some (at_terminal m))
             (Some (Args.set_user_data (Mgr.user_data m) a))
             (t ++ terminal_events m a e)).
Proof.
  intros Hidx Hterm. unfold call_next_handshaker_locked.
  unfold bind at 1. unfold load_mgr. cbn [heap_mgr].
  unfold bind at 1.
  destruct (Z.leb_spec (Mgr.index m) (Mgr.count m)) as [_ | Hbad]; [| lia].
  cbn [GPR_ASSERT ret].
  assert (Hc : negb (grpc_error_is_none e) || (Mgr.index m =? Mgr.count m) = true).
  { destruct Hterm as [He | Hi].
    - destruct e; [contradiction | reflexivity].
    - apply orb_true_iff. right. apply Z.eqb_eq. exact Hi. }
  rewrite Hc.
  unfold bind at 1. unfold grpc_timer_cancel, bind, emit, update_mgr,
    args_set_user_data, load_args, store_args, grpc_exec_ctx_sched, bind,
    load_args, emit. cbn.
  unfold terminal_events, at_terminal, GRPC_ERROR_REF.
  rewrite <- !app_assoc. reflexivity.
Qed.

Lemma locked_continue hs m a t h :
  registered hs m ->
  0 <= Mgr.index m ->
  hs !! Z.to_nat (Mgr.index m) = Some h ->
  call_next_handshaker_locked GRPC_ERROR_NONE (World (Some m) (Some a) t)
  = Ok tt (World (Some (Mgr.set_index (Mgr.index m + 1) m)) (Some a)
                 (t ++ [ev_handshaker_do_handshake h (Mgr.acceptor m)
                          (Mgr.call_next_handshaker m) a])).
Proof.
  intros (Hc & Hlt & Hslots) Hi Hh.
  pose proof (lookup_lt_Some _ _ _ Hh) as Hlen.
  unfold call_next_handshaker_locked.
  unfold bind at 1. unfold load_mgr. cbn [heap_mgr].
  unfold bind at 1.
  destruct (Z.leb_spec (Mgr.index m) (Mgr.count m)) as [_ | Hbad]; [| lia].
  cbn [GPR_ASSERT ret grpc_error_is_none negb orb].
  destruct (Z.eqb_spec (Mgr.index m) (Mgr.count m)) as [E | _]; [lia |].
  unfold bind at 1. unfold load_handshaker, bind, load_mgr. cbn [heap_mgr].
  rewrite (Hslots _ _ Hh).
  unfold grpc_handshaker_do_handshake, bind, load_args, emit, update_mgr, ret.
  cbn. unfold size_add. rewrite size_wrap_small by lia. reflexivity.
Qed.

Lemma call_next_handshaker_run m a t e :
  Args.user_data a = ptr_mgr ->
  call_next_handshaker ptr_args e (World (Some m) (Some a) t)
  = (call_next_handshaker_locked e ;;; gpr_mu_unlock)
      (World (Some m) (Some a) (t ++ [ev_mu_lock])).
Proof.
  intros Hu. unfold call_next_handshaker.
  unfold bind at 1. cbn [as_args ret].
  unfold bind at 1. unfold load_args. cbn [heap_args].
  unfold bind at 1. rewrite Hu. cbn [as_mgr ret].
  unfold bind at 1. unfold gpr_mu_lock, emit. cbn. reflexivity.
Qed.

(** ** do_handshake up to its first advance step *)

Lemma do_handshake_run m a0 t ep ca dl acc cbk ud :
  Mgr.index m = 0 ->
  grpc_handshake_manager_do_handshake ep ca dl acc cbk ud (World (Some m) a0 t)
  = (call_next_handshaker_locked GRPC_ERROR_NONE ;;; gpr_mu_unlock)
      (World (Some (chain_start m dl acc cbk ud)) (Some (chain_args ep ca))
             (t ++ [ev_mu_lock; ev_timer_init dl (Closure cb_on_timeout ptr_mgr)])).
Proof.
  intros Hi.
  unfold grpc_handshake_manager_do_handshake, bind, store_args, gpr_mu_lock,
    gpr_mu_unlock, emit, load_mgr, update_mgr, args_set_user_data, load_args,
    store_args, gpr_ref, grpc_timer_init, bind, emit, update_mgr.
  cbn [heap_mgr heap_args trace]. rewrite Hi.
  cbn [Z.eqb GPR_ASSERT ret heap_mgr heap_args trace].
  rewrite <- app_assoc. reflexivity.
Qed.

(** ** The chain *)

Lemma report_all_app l1 l2 w :
  report_all (l1 ++ l2) w = (report_all l1 ;;; report_all l2) w.
Proof.
  revert w. induction l1 as [| e l1 IH]; intros w.
  - reflexivity.
  - cbn [app report_all]. unfold bind.
    destruct (call_next_handshaker ptr_args e w) as [[] w' | f]; [| reflexivity].
    rewrite IH. reflexivity.
Qed.

Lemma started_app t1 t2 : started (t1 ++ t2) = started t1 ++ started t2.
Proof. apply omap_app. Qed.

Lemma scheduled_app t1 t2 : scheduled (t1 ++ t2) = scheduled t1 ++ scheduled t2.
Proof. apply omap_app. Qed.

(** Successes while handshakers remain: each report starts the next
    handshaker and moves the cursor by one. *)
Lemma report_successes next :
  forall hs m a t,
    registered hs m ->
    0 <= Mgr.index m ->
    Args.user_data a = ptr_mgr ->
    take (length next) (drop (Z.to_nat (Mgr.index m)) hs) = next ->
    report_all (repeat GRPC_ERROR_NONE (length next)) (World (Some m) (Some a) t)
    = Ok tt (World (Some (Mgr.set_index (Mgr.index m + Z.of_nat (length next)) m))
                   (Some a)
                   (t ++ flat_map (advance_events m a) next)).
Proof.
  induction next as [| h next IH]; intros hs m a t Hreg Hi Hu Hnext.
  - cbn. rewrite app_nil_r, Z.add_0_r. destruct m; reflexivity.
  - cbn [length repeat report_all]. unfold bind at 1.
    rewrite call_next_handshaker_run by exact Hu.
    unfold bind at 1.
    assert (Hh : hs !! Z.to_nat (Mgr.index m) = Some h).
    { apply (f_equal (fun l => l !! 0%nat)) in Hnext.
      cbn [length] in Hnext. rewrite lookup_take_lt in Hnext by lia.
      rewrite lookup_drop, Nat.add_0_r in Hnext. exact Hnext. }
    rewrite (locked_continue hs m a _ h Hreg Hi Hh).
    unfold gpr_mu_unlock, emit. cbn [heap_mgr heap_args trace].
    set (m' := Mgr.set_index (Mgr.index m + 1) m).
    rewrite (IH hs m' a).
    + cbn [flat_map]. unfold advance_events at 2.
      subst m'. cbn. rewrite <- !app_assoc. cbn.
      replace (Mgr.index m + 1 + Z.of_nat (length next))
        with (Mgr.index m + Z.pos (Pos.of_succ_nat (length next))) by lia.
      reflexivity.
    + exact Hreg.
    + subst m'. cbn. lia.
    + exact Hu.
    + subst m'. cbn [Mgr.index Mgr.set_index].
      replace (Z.to_nat (Mgr.index m + 1))
        with (Z.to_nat (Mgr.index m) + 1)%nat by lia.
      cbn [length] in Hnext.
      rewrite <- (drop_drop hs 1 (Z.to_nat (Mgr.index m))).
      destruct (drop (Z.to_nat (Mgr.index m)) hs) as [| x rest] eqn:E.
      * discriminate Hnext.
      * cbn in Hnext. injection Hnext as _ Hn. cbn. rewrite drop_0. exact Hn.
Qed.

(** No handshaker registered: do_handshake itself reaches the terminal
    condition. *)
Lemma chain_run_empty m a0 t ep ca dl acc cbk ud :
  registered [] m ->
  Mgr.index m = 0 ->
  1 <= Mgr.refs m ->
  grpc_handshake_manager_do_handshake ep ca dl acc cbk ud (World (Some m) a0 t)
  = Ok tt (World (Some (chain_end m dl acc cbk ud 0))
                 (Some (Args.set_user_data ud (chain_args ep ca)))
                 (t ++ chain_log dl acc cbk ud (chain_args ep ca) []
                                 GRPC_ERROR_NONE)).
Proof.
  intros (Hc & _ & _) Hi Hr. cbn [length] in Hc.
  rewrite do_handshake_run by exact Hi.
  unfold bind at 1. rewrite locked_terminal.
  2:{ cbn. lia. }
  2:{ right. cbn. lia. }
  rewrite unref_run_shared.
  2:{ cbn. lia. }
  unfold gpr_mu_unlock, emit. cbn [heap_mgr heap_args trace].
  unfold chain_end, chain_log, terminal_events, at_terminal, chain_start.
  cbn. rewrite Hi. rewrite <- !app_assoc. cbn.
  replace (Mgr.refs m + 1 + 1 - 1) with (Mgr.refs m + 1) by lia.
  reflexivity.
Qed.

(** At least one handshaker: the first starts in do_handshake, [k] more
    start on reports of success, and the report after them ends the chain,
    either because it carries an error or because no handshaker is left. *)
Lemma chain_run h0 hs' (k : nat) e m a0 t ep ca dl acc cbk ud :
  registered (h0 :: hs') m ->
  Mgr.index m = 0 ->
  1 <= Mgr.refs m ->
  (k <= length hs')%nat ->
  e <> GRPC_ERROR_NONE \/ k = length hs' ->
  (grpc_handshake_manager_do_handshake ep ca dl acc cbk ud ;;;
   report_all (repeat GRPC_ERROR_NONE k ++ [e])) (World (Some m) a0 t)
  = Ok tt (World (Some (chain_end m dl acc cbk ud (1 + Z.of_nat k)))
                 (Some (Args.set_user_data ud (chain_args ep ca)))
                 (t ++ chain_log dl acc cbk ud (chain_args ep ca)
                                 (h0 :: take k hs') e)).
Proof.
  intros Hreg Hi Hr Hk Hterm.
  pose proof Hreg as (Hc & Hlt & Hslots). cbn [length] in Hc, Hlt.
  unfold bind at 1. rewrite do_handshake_run by exact Hi.
  unfold bind at 1.
  set (m1 := chain_start m dl acc cbk ud).
  set (a1 := chain_args ep ca).
  assert (Hreg1 : registered (h0 :: hs') m1) by exact Hreg.
  rewrite (locked_continue (h0 :: hs') m1 a1 _ h0 Hreg1).
  2:{ subst m1. cbn. lia. }
  2:{ subst m1. cbn. rewrite Hi. reflexivity. }
  unfold gpr_mu_unlock, emit. cbn [heap_mgr heap_args trace].
  rewrite report_all_app. unfold bind at 1.
  set (m2 := Mgr.set_index (Mgr.index m1 + 1) m1).
  assert (Hlen : length (take k hs') = k) by (rewrite length_take; lia).
  rewrite <- Hlen at 1.
  rewrite (report_successes (take k hs') (h0 :: hs') m2 a1).
  2:{ exact Hreg. }
  2:{ subst m2 m1. cbn. lia. }
  2:{ reflexivity. }
  2:{ subst m2 m1. cbn [Mgr.index Mgr.set_index chain_start]. rewrite Hi, Hlen.
      change (Z.to_nat (0 + 1)) with 1%nat. cbn [drop]. rewrite drop_0.
      reflexivity. }
  cbn [report_all]. unfold bind at 1.
  rewrite call_next_handshaker_run by reflexivity.
  unfold bind at 1. rewrite locked_terminal.
  2:{ subst m2 m1. cbn. rewrite Hlen. lia. }
  2:{ destruct Hterm as [He | Hk']; [left; exact He | right].
      subst m2 m1. cbn. rewrite Hlen. lia. }
  rewrite unref_run_shared.
  2:{ subst m2 m1. cbn. lia. }
  unfold gpr_mu_unlock, emit, ret. cbn [heap_mgr heap_args trace].
  subst m2 m1 a1.
  unfold chain_end, chain_log, terminal_events, at_terminal, chain_start,
    advance_events.
  cbn. rewrite Hi, Hlen. rewrite <- !app_assoc. cbn.
  replace (Mgr.refs m + 1 + 1 - 1) with (Mgr.refs m + 1) by lia.
  replace (0 + 1 + Z.of_nat k) with (1 + Z.of_nat k) by lia.
  reflexivity.
Qed.

(** ** Reading the log of a chain *)

Lemma started_chain_body acc a rest :
  started (flat_map (fun h =>
             [ev_mu_lock;
              ev_handshaker_do_handshake h acc
                (Closure cb_call_next_handshaker ptr_args) a;
              ev_mu_unlock]) rest) = rest.
Proof.
  induction rest as [| h rest IH]; [reflexivity |]. cbn. f_equal. exact IH.
Qed.

Lemma scheduled_chain_body acc a rest :
  scheduled (flat_map (fun h =>
               [ev_mu_lock;
                ev_handshaker_do_handshake h acc
                  (Closure cb_call_next_handshaker ptr_args) a;
                ev_mu_unlock]) rest) = [].
Proof.
  induction rest as [| h rest IH]; [reflexivity |]. cbn. exact IH.
Qed.

Lemma started_chain_log dl acc cbk ud a run e :
  started (chain_log dl acc cbk ud a run e) = run.
Proof.
  unfold chain_log. destruct run as [| h0 rest]; [reflexivity |].
  rewrite !started_app, started_chain_body. cbn. rewrite !app_nil_r.
  reflexivity.
Qed.

Lemma scheduled_chain_log dl acc cbk ud a run e :
  scheduled (chain_log dl acc cbk ud a run e) = [(Closure cbk ptr_args, e)].
Proof.
  unfold chain_log. destruct run as [| h0 rest]; [reflexivity |].
  rewrite !scheduled_app, scheduled_chain_body. reflexivity.
Qed.

(** The log of a chain ends with the terminal callback; everything that was
    started was started before it. *)
Lemma chain_log_split dl acc cbk ud a run e :
  exists pre,
    chain_log dl acc cbk ud a run e
    = pre ++ [ev_exec_ctx_sched (Closure cbk ptr_args) e
                                (Args.set_user_data ud a);
              ev_mu_unlock] /\
    started pre = run /\ scheduled pre = [].
Proof.
  unfold chain_log. destruct run as [| h0 rest].
  - eexists [_; _; _]. cbn. split; [reflexivity | split; reflexivity].
  - exists ([ev_mu_lock; ev_timer_init dl (Closure cb_on_timeout ptr_mgr)] ++
            ([ev_handshaker_do_handshake h0 acc
                (Closure cb_call_next_handshaker ptr_args) a; ev_mu_unlock] ++
             flat_map (fun h =>
               [ev_mu_lock;
                ev_handshaker_do_handshake h acc
                  (Closure cb_call_next_handshaker ptr_args) a;
                ev_mu_unlock]) rest ++ [ev_mu_lock]) ++ [ev_timer_cancel]).
    split; [rewrite <- !app_assoc; reflexivity |].
    rewrite !started_app, !scheduled_app, started_chain_body,
      scheduled_chain_body. cbn. rewrite !app_nil_r. split; reflexivity.
Qed.

Lemma registered_take hs m :
  Mgr.count m = Z.of_nat (length hs) ->
  Z.of_nat (length hs) < SIZE_MOD ->
  take (length hs) (Mgr.handshakers m) = Some <$> hs ->
  registered hs m.
Proof.
  intros Hc Hlt Htake. split; [exact Hc | split; [exact Hlt |]].
  intros i h Hh. pose proof (lookup_lt_Some _ _ _ Hh) as Hi.
  rewrite <- (lookup_take_lt _ (length hs)) by exact Hi.
  rewrite Htake, list_lookup_fmap, Hh. reflexivity.
Qed.

Lemma chained_chain_log dl acc cbk ud a run e :
  Args.user_data a = ptr_mgr ->
  chained_user_data (chain_log dl acc cbk ud a run e)
  = repeat ptr_mgr (length run).
Proof.
  intros Hu. unfold chain_log, chained_user_data.
  destruct run as [| h0 rest]; [reflexivity |].
  rewrite !omap_app. cbn. rewrite Hu, app_nil_r. f_equal.
  induction rest as [| h rest IH]; [reflexivity |].
  cbn. rewrite Hu, IH. reflexivity.
Qed.

Lemma terminal_chain_log dl acc cbk ud a run e :
  terminal_user_data (chain_log dl acc cbk ud a run e) = [ud].
Proof.
  unfold chain_log, terminal_user_data.
  destruct run as [| h0 rest]; [reflexivity |].
  rewrite !omap_app. cbn.
  replace (omap _ (flat_map _ rest)) with (@nil void_ptr); [reflexivity |].
  induction rest as [| h rest IH]; [reflexivity |]. cbn. exact IH.
Qed.

(** ** The chain that runs to its end *)

(** C1: with N registered handshakers that all report success, one
    do_handshake starts each of them once, in registration order, and then
    hands the terminal callback to the exec_ctx once, with no error. *)
Theorem all_succeed_terminal_once hs m a0 t ep ca dl acc cbk ud :
  registered hs m ->
  Mgr.index m = 0 ->
  1 <= Mgr.refs m ->
  exists w' pre,
    (grpc_handshake_manager_do_handshake ep ca dl acc cbk ud ;;;
     report_all (repeat GRPC_ERROR_NONE (length hs))) (World (Some m) a0 t)
    = Ok tt w' /\
    trace w' = t ++ pre ++
               [ev_exec_ctx_sched (Closure cbk ptr_args) GRPC_ERROR_NONE
                  (Args.set_user_data ud (chain_args ep ca));
                ev_mu_unlock] /\
    started pre = hs /\
    scheduled pre = [] /\
    started (drop (length t) (trace w')) = hs /\
    scheduled (drop (length t) (trace w'))
    = [(Closure cbk ptr_args, GRPC_ERROR_NONE)].
Proof.
  intros Hreg Hi Hr.
  assert (Hrun : exists w',
    (grpc_handshake_manager_do_handshake ep ca dl acc cbk ud ;;;
     report_all (repeat GRPC_ERROR_NONE (length hs))) (World (Some m) a0 t)
    = Ok tt w' /\
    trace w' = t ++ chain_log dl acc cbk ud (chain_args ep ca) hs GRPC_ERROR_NONE).
  { destruct hs as [| h0 hs'].
    - eexists. split.
      + cbn [length repeat report_all]. unfold bind.
        rewrite (chain_run_empty m a0 t ep ca dl acc cbk ud Hreg Hi Hr).
        reflexivity.
      + reflexivity.
    - eexists. split.
      + cbn [length repeat]. rewrite repeat_cons.
        rewrite (chain_run h0 hs' (length hs') GRPC_ERROR_NONE m a0 t ep ca dl
                           acc cbk ud Hreg Hi Hr); [reflexivity | lia | right; reflexivity].
      + cbn [trace]. rewrite firstn_all. reflexivity. }
  destruct Hrun as (w' & Hw' & Htr).
  destruct (chain_log_split dl acc cbk ud (chain_args ep ca) hs GRPC_ERROR_NONE)
    as (pre & Hsplit & Hst & Hsc).
  exists w', pre. split; [exact Hw' |].
  split; [rewrite Htr, Hsplit; reflexivity |].
  split; [exact Hst |]. split; [exact Hsc |].
  rewrite Htr, drop_app_length.
  split; [apply started_chain_log | apply scheduled_chain_log].
Qed.

Lemma all_succeed_terminal_once_witness :
  exists w' pre,
    (grpc_handshake_manager_do_handshake 7 [(1, 2)] 5 0 (cb_caller 1)
                                         (ptr_opaque 99) ;;;
     report_all (repeat GRPC_ERROR_NONE (length [10; 11; 12])))
      (World (Some demo_mgr) None [])
    = Ok tt w' /\
    trace w' = [] ++ pre ++
               [ev_exec_ctx_sched (Closure (cb_caller 1) ptr_args) GRPC_ERROR_NONE
                  (Args.set_user_data (ptr_opaque 99) (chain_args 7 [(1, 2)]));
                ev_mu_unlock] /\
    started pre = [10; 11; 12] /\
    scheduled pre = [] /\
    started (drop (length (@nil event)) (trace w')) = [10; 11; 12] /\
    scheduled (drop (length (@nil event)) (trace w'))
    = [(Closure (cb_caller 1) ptr_args, GRPC_ERROR_NONE)].
Proof.
  apply (all_succeed_terminal_once [10; 11; 12] demo_mgr None [] 7 [(1, 2)] 5 0
           (cb_caller 1) (ptr_opaque 99)).
  - apply registered_take; reflexivity.
  - reflexivity.
  - vm_compute. discriminate.
Defined.

(** C2: when the k-th handshaker (1 <= k <= N) reports an error after its
    predecessors succeeded, exactly the first k handshakers were started,
    and the terminal callback is scheduled once with that very error. *)
Theorem error_short_circuits hs (k : nat) e m a0 t ep ca dl acc cbk ud :
  registered hs m ->
  Mgr.index m = 0 ->
  1 <= Mgr.refs m ->
  (1 <= k <= length hs)%nat ->
  e <> GRPC_ERROR_NONE ->
  exists w' m' pre,
    (grpc_handshake_manager_do_handshake ep ca dl acc cbk ud ;;;
     report_all (repeat GRPC_ERROR_NONE (k - 1) ++ [e])) (World (Some m) a0 t)
    = Ok tt w' /\
    trace w' = t ++ pre ++
               [ev_exec_ctx_sched (Closure cbk ptr_args) e
                  (Args.set_user_data ud (chain_args ep ca));
                ev_mu_unlock] /\
    started pre = take k hs /\
    scheduled pre = [] /\
    started (drop (length t) (trace w')) = take k hs /\
    scheduled (drop (length t) (trace w')) = [(Closure cbk ptr_args, e)] /\
    heap_mgr w' = Some m' /\
    Mgr.index m' = Z.of_nat k.
Proof.
  intros Hreg Hi Hr Hk He.
  destruct hs as [| h0 hs']; [cbn in Hk; lia |].
  cbn [length] in Hk.
  pose proof (chain_run h0 hs' (k - 1) e m a0 t ep ca dl acc cbk ud Hreg Hi Hr)
    as Hrun.
  rewrite Hrun; [| lia | left; exact He].
  destruct (chain_log_split dl acc cbk ud (chain_args ep ca)
              (h0 :: take (k - 1) hs') e) as (pre & Hsplit & Hst & Hsc).
  assert (Htake : take k (h0 :: hs') = h0 :: take (k - 1) hs').
  { destruct k as [| k']; [lia |]. cbn. rewrite Nat.sub_0_r. reflexivity. }
  eexists _, _, pre. split; [reflexivity |]. cbn [trace heap_mgr].
  split; [rewrite Hsplit; reflexivity |].
  split; [rewrite Htake; exact Hst |]. split; [exact Hsc |].
  rewrite drop_app_length, Htake.
  split; [apply started_chain_log |].
  split; [apply scheduled_chain_log |].
  split; [reflexivity |]. cbn. lia.
Qed.

Lemma error_short_circuits_witness :
  exists w' m' pre,
    (grpc_handshake_manager_do_handshake 7 [(1, 2)] 5 0 (cb_caller 1)
                                         (ptr_opaque 99) ;;;
     report_all (repeat GRPC_ERROR_NONE (2 - 1) ++ [GRPC_ERROR 42]))
      (World (Some demo_mgr) None [])
    = Ok tt w' /\
    trace w' = [] ++ pre ++
               [ev_exec_ctx_sched (Closure (cb_caller 1) ptr_args) (GRPC_ERROR 42)
                  (Args.set_user_data (ptr_opaque 99) (chain_args 7 [(1, 2)]));
                ev_mu_unlock] /\
    started pre = take 2 [10; 11; 12] /\
    scheduled pre = [] /\
    started (drop (length (@nil event)) (trace w')) = take 2 [10; 11; 12] /\
    scheduled (drop (length (@nil event)) (trace w'))
    = [(Closure (cb_caller 1) ptr_args, GRPC_ERROR 42)] /\
    heap_mgr w' = Some m' /\
    Mgr.index m' = Z.of_nat 2.
Proof.
  apply (error_short_circuits [10; 11; 12] 2 (GRPC_ERROR 42) demo_mgr None []
           7 [(1, 2)] 5 0 (cb_caller 1) (ptr_opaque 99)).
  - apply registered_take; reflexivity.
  - reflexivity.
  - vm_compute. discriminate.
  - cbn. lia.
  - discriminate.
Defined.

(** C8: with no handshaker registered, do_handshake arms the timer, cancels
    it at once, and schedules the terminal callback once, with no error and
    with the caller's endpoint in the args. *)
Theorem no_handshakers_terminal_at_once (m : grpc_handshake_manager)
    a0 t ep ca dl acc cbk ud :
  Mgr.count m = 0 ->
  Mgr.index m = 0 ->
  1 <= Mgr.refs m ->
  exists m' a',
    grpc_handshake_manager_do_handshake ep ca dl acc cbk ud (World (Some m) a0 t)
    = Ok tt (World (Some m') (Some a')
                   (t ++ [ev_mu_lock;
                          ev_timer_init dl (Closure cb_on_timeout ptr_mgr);
                          ev_timer_cancel;
                          ev_exec_ctx_sched (Closure cbk ptr_args)
                                            GRPC_ERROR_NONE a';
                          ev_mu_unlock])) /\
    Args.endpoint a' = ep /\
    Args.user_data a' = ud /\
    Mgr.deadline_timer m' = timer_cancelled /\
    Mgr.index m' = 0 /\
    Mgr.refs m' = Mgr.refs m + 1.
Proof.
  intros Hc Hi Hr.
  assert (Hreg : registered [] m).
  { split; [exact Hc | split; [reflexivity |]]. intros i h Hh. discriminate Hh. }
  exists (chain_end m dl acc cbk ud 0), (Args.set_user_data ud (chain_args ep ca)).
  split.
  - rewrite (chain_run_empty m a0 t ep ca dl acc cbk ud Hreg Hi Hr).
    reflexivity.
  - cbn. repeat split; reflexivity.
Qed.

Lemma no_handshakers_terminal_at_once_witness :
  exists m' a',
    grpc_handshake_manager_do_handshake 7 [(1, 2)] 5 0 (cb_caller 1)
      (ptr_opaque 99) (World (Some demo_mgr_empty) None [])
    = Ok tt (World (Some m') (Some a')
                   ([] ++ [ev_mu_lock;
                           ev_timer_init 5 (Closure cb_on_timeout ptr_mgr);
                           ev_timer_cancel;
                           ev_exec_ctx_sched (Closure (cb_caller 1) ptr_args)
                                             GRPC_ERROR_NONE a';
                           ev_mu_unlock])) /\
    Args.endpoint a' = 7 /\
    Args.user_data a' = ptr_opaque 99 /\
    Mgr.deadline_timer m' = timer_cancelled /\
    Mgr.index m' = 0 /\
    Mgr.refs m' = Mgr.refs demo_mgr_empty + 1.
Proof.
  apply (no_handshakers_terminal_at_once demo_mgr_empty None [] 7 [(1, 2)] 5 0
           (cb_caller 1) (ptr_opaque 99)).
  - reflexivity.
  - reflexivity.
  - vm_compute. discriminate.
Defined.

(** C6: in a chain that runs to its end, every handshaker is handed args
    whose user_data is the manager, every report finds the manager through
    it, and the terminal callback is scheduled, once, on args whose
    user_data is the caller's; the args keep the caller's user_data. *)
Theorem user_data_restored hs errors m a0 t ep ca dl acc cbk ud :
  registered hs m ->
  Mgr.index m = 0 ->
  1 <= Mgr.refs m ->
  chain_reports hs errors ->
  exists w' a',
    (grpc_handshake_manager_do_handshake ep ca dl acc cbk ud ;;;
     report_all errors) (World (Some m) a0 t) = Ok tt w' /\
    Forall (fun p => p = ptr_mgr)
           (chained_user_data (drop (length t) (trace w'))) /\
    length (chained_user_data (drop (length t) (trace w')))
    = length (started (drop (length t) (trace w'))) /\
    terminal_user_data (drop (length t) (trace w')) = [ud] /\
    heap_args w' = Some a' /\
    Args.user_data a' = ud /\
    (ud <> ptr_mgr -> Args.user_data a' <> ptr_mgr).
Proof.
  intros Hreg Hi Hr Hrep.
  assert (Hrun : exists run e w',
    (grpc_handshake_manager_do_handshake ep ca dl acc cbk ud ;;;
     report_all errors) (World (Some m) a0 t) = Ok tt w' /\
    trace w' = t ++ chain_log dl acc cbk ud (chain_args ep ca) run e /\
    heap_args w' = Some (Args.set_user_data ud (chain_args ep ca))).
  { destruct hs as [| h0 hs'].
    - cbn in Hrep. subst errors. exists [], GRPC_ERROR_NONE. eexists. split.
      + cbn [report_all]. unfold bind.
        rewrite (chain_run_empty m a0 t ep ca dl acc cbk ud Hreg Hi Hr).
        reflexivity.
      + split; reflexivity.
    - destruct Hrep as (k & e & -> & Hk & Hterm).
      exists (h0 :: take k hs'), e. eexists. split.
      + apply (chain_run h0 hs' k e m a0 t ep ca dl acc cbk ud Hreg Hi Hr Hk Hterm).
      + split; reflexivity. }
  destruct Hrun as (run & e & w' & Hw' & Htr & Ha).
  exists w', (Args.set_user_data ud (chain_args ep ca)).
  split; [exact Hw' |]. rewrite Htr, drop_app_length.
  rewrite chained_chain_log by reflexivity.
  rewrite terminal_chain_log, started_chain_log.
  split; [apply Forall_forall; intros p Hp; apply repeat_spec in Hp; exact Hp |].
  split; [apply repeat_length |].
  split; [reflexivity |]. split; [exact Ha |].
  split; [reflexivity |]. intros Hne. exact Hne.
Qed.

Lemma user_data_restored_witness :
  exists w' a',
    (grpc_handshake_manager_do_handshake 7 [(1, 2)] 5 0 (cb_caller 1)
                                         (ptr_opaque 99) ;;;
     report_all [GRPC_ERROR_NONE; GRPC_ERROR 42]) (World (Some demo_mgr) None [])
    = Ok tt w' /\
    Forall (fun p => p = ptr_mgr)
           (chained_user_data (drop (length (@nil event)) (trace w'))) /\
    length (chained_user_data (drop (length (@nil event)) (trace w')))
    = length (started (drop (length (@nil event)) (trace w'))) /\
    terminal_user_data (drop (length (@nil event)) (trace w')) = [ptr_opaque 99] /\
    heap_args w' = Some a' /\
    Args.user_data a' = ptr_opaque 99 /\
    (ptr_opaque 99 <> ptr_mgr -> Args.user_data a' <> ptr_mgr).
Proof.
  apply (user_data_restored [10; 11; 12] [GRPC_ERROR_NONE; GRPC_ERROR 42]
           demo_mgr None [] 7 [(1, 2)] 5 0 (cb_caller 1) (ptr_opaque 99)).
  - apply registered_take; reflexivity.
  - reflexivity.
  - vm_compute. discriminate.
  - exists 1%nat, (GRPC_ERROR 42). split; [reflexivity |].
    split; [cbn; lia | left; discriminate].
Defined.

(** ** shutdown and the timeout callback *)

Lemma scheduled_shutdown_events hs : scheduled (shutdown_events hs) = [].
Proof.
  unfold shutdown_events. rewrite !scheduled_app. cbn.
  induction hs as [| h hs IH]; [reflexivity | exact IH].
Qed.

Lemma scheduled_destroy_events hs : scheduled (destroy_events hs) = [].
Proof.
  unfold destroy_events. rewrite scheduled_app. cbn. rewrite app_nil_r.
  induction hs as [| h hs IH]; [reflexivity | exact IH].
Qed.

Lemma started_shutdown_events hs : started (shutdown_events hs) = [].
Proof.
  unfold shutdown_events. rewrite !started_app. cbn.
  induction hs as [| h hs IH]; [reflexivity | exact IH].
Qed.

(** C7: whatever the cursor, shutdown calls the shutdown operation of every
    registered handshaker, in registration order, under the lock, and
    leaves the manager (cursor, count, reference count and all) and the
    args as they were; it schedules nothing and starts nothing. *)
Theorem shutdown_reaches_all hs (m : grpc_handshake_manager) a t :
  registered hs m ->
  exists w',
    grpc_handshake_manager_shutdown (World (Some m) a t) = Ok tt w' /\
    trace w' = t ++ [ev_mu_lock] ++ map ev_handshaker_shutdown hs
                 ++ [ev_mu_unlock] /\
    heap_mgr w' = Some m /\
    heap_args w' = a /\
    scheduled (drop (length t) (trace w')) = [] /\
    started (drop (length t) (trace w')) = [].
Proof.
  intros Hreg. eexists. split; [apply (shutdown_run hs m a t Hreg) |].
  cbn [trace heap_mgr heap_args]. rewrite drop_app_length.
  split; [reflexivity |]. split; [reflexivity |]. split; [reflexivity |].
  split; [apply scheduled_shutdown_events | apply started_shutdown_events].
Qed.

Lemma shutdown_reaches_all_witness :
  exists w',
    grpc_handshake_manager_shutdown (World (Some demo_mgr) None []) = Ok tt w' /\
    trace w' = [] ++ [ev_mu_lock] ++ map ev_handshaker_shutdown [10; 11; 12]
                  ++ [ev_mu_unlock] /\
    heap_mgr w' = Some demo_mgr /\
    heap_args w' = None /\
    scheduled (drop (length (@nil event)) (trace w')) = [] /\
    started (drop (length (@nil event)) (trace w')) = [].
Proof.
  apply (shutdown_reaches_all [10; 11; 12] demo_mgr None []).
  apply registered_take; reflexivity.
Defined.

(** What a release of one reference says to the collaborators, and what it
    leaves of the manager. *)
Lemma unref_run hs (m : grpc_handshake_manager) a t :
  registered hs m ->
  grpc_handshake_manager_unref (World (Some m) a t)
  = Ok tt (World (if Mgr.refs m =? 1 then None
                  else Some (Mgr.set_refs (Mgr.refs m - 1) m))
                 a
                 (t ++ if Mgr.refs m =? 1 then destroy_events hs else [])).
Proof.
  intros Hreg. destruct (Z.eqb_spec (Mgr.refs m) 1) as [E | E].
  - apply unref_run_last; assumption.
  - rewrite app_nil_r. apply unref_run_shared; assumption.
Qed.

(** C4: the timeout callback shuts the manager down exactly when its error
    is the no-error value (the timer fired); fired or cancelled, it gives up
    one reference, once; it schedules nothing. *)
Theorem on_timeout_fired_or_cancelled hs (m : grpc_handshake_manager) a t e :
  registered hs m ->
  exists w',
    on_timeout ptr_mgr e (World (Some m) a t) = Ok tt w' /\
    trace w' = t ++ (if grpc_error_is_none e then shutdown_events hs else [])
                 ++ (if Mgr.refs m =? 1 then destroy_events hs else []) /\
    (heap_mgr w' = if Mgr.refs m =? 1 then None
                   else Some (Mgr.set_refs (Mgr.refs m - 1) m)) /\
    heap_args w' = a /\
    scheduled (drop (length t) (trace w')) = [] /\
    (shut_down (drop (length t) (trace w'))
     = if grpc_error_is_none e then hs else []).
Proof.
  intros Hreg. unfold on_timeout. unfold bind at 1. cbn [as_mgr ret].
  unfold bind at 1.
  assert (Hsd : forall l, shut_down (shutdown_events l) = l).
  { intros l. unfold shutdown_events, shut_down. rewrite !omap_app. cbn.
    rewrite app_nil_r. induction l as [| x l IH]; [reflexivity |].
    cbn. f_equal. exact IH. }
  assert (Hds : forall l, shut_down (destroy_events l) = []).
  { intros l. unfold destroy_events, shut_down. rewrite omap_app. cbn.
    rewrite app_nil_r. induction l as [| x l IH]; [reflexivity | exact IH]. }
  assert (Hrel : shut_down (if Mgr.refs m =? 1 then destroy_events hs else []) = []).
  { destruct (Mgr.refs m =? 1); [apply Hds | reflexivity]. }
  assert (Hrel' : scheduled (if Mgr.refs m =? 1 then destroy_events hs else []) = []).
  { destruct (Mgr.refs m =? 1); [apply scheduled_destroy_events | reflexivity]. }
  destruct e as [| code]; cbn [grpc_error_is_none].
  - rewrite (shutdown_run hs m a t Hreg).
    rewrite (unref_run hs m a _ Hreg).
    eexists. split; [reflexivity |]. cbn [trace heap_mgr heap_args].
    rewrite <- app_assoc, drop_app_length.
    split; [reflexivity |]. split; [reflexivity |]. split; [reflexivity |].
    split.
    + rewrite scheduled_app, scheduled_shutdown_events, Hrel'. reflexivity.
    + unfold shut_down in *. rewrite omap_app.
      fold (shut_down (shutdown_events hs)). rewrite Hsd, Hrel.
      apply app_nil_r.
  - cbn [ret]. rewrite (unref_run hs m a _ Hreg).
    eexists. split; [reflexivity |]. cbn [trace heap_mgr heap_args app].
    rewrite drop_app_length.
    split; [reflexivity |]. split; [reflexivity |]. split; [reflexivity |].
    split; [exact Hrel' | exact Hrel].
Qed.

Lemma on_timeout_fired_or_cancelled_witness :
  exists w',
    on_timeout ptr_mgr GRPC_ERROR_NONE (World (Some demo_mgr) None []) = Ok tt w' /\
    trace w' = [] ++ (if grpc_error_is_none GRPC_ERROR_NONE
                      then shutdown_events [10; 11; 12] else [])
                  ++ (if Mgr.refs demo_mgr =? 1
                      then destroy_events [10; 11; 12] else []) /\
    (heap_mgr w' = if Mgr.refs demo_mgr =? 1 then None
                   else Some (Mgr.set_refs (Mgr.refs demo_mgr - 1) demo_mgr)) /\
    heap_args w' = None /\
    scheduled (drop (length (@nil event)) (trace w')) = [] /\
    (shut_down (drop (length (@nil event)) (trace w'))
     = if grpc_error_is_none GRPC_ERROR_NONE then [10; 11; 12] else []).
Proof.
  apply (on_timeout_fired_or_cancelled [10; 11; 12] demo_mgr None []
           GRPC_ERROR_NONE).
  apply registered_take; reflexivity.
Defined.

(** ** add *)

Lemma add_run (m : grpc_handshake_manager) a t h :
  Mgr.count m < Z.of_nat (length (grown m)) ->
  grpc_handshake_manager_add h (World (Some m) a t)
  = Ok tt (World
             (Some (Mgr.set_count (size_add (Mgr.count m) 1)
                      (Mgr.set_handshakers
                         (<[Z.to_nat (Mgr.count m) := Some h]> (grown m)) m)))
             a
             (t ++ [ev_mu_lock]
                ++ (if 0 <? realloc_count_for (Mgr.count m)
                    then [ev_realloc_handshakers
                            (size_mul (realloc_count_for (Mgr.count m)) sizeof_ptr)]
                    else [])
                ++ [ev_mu_unlock])).
Proof.
  intros Hin. unfold grown in Hin.
  unfold grpc_handshake_manager_add, bind, gpr_mu_lock, gpr_mu_unlock, emit,
    load_mgr, gpr_realloc_handshakers, store_handshaker, bind, emit, update_mgr,
    load_mgr, ret.
  cbn [heap_mgr heap_args trace].
  destruct (0 <? realloc_count_for (Mgr.count m)) eqn:Hrc;
    cbn [heap_mgr heap_args trace Mgr.handshakers Mgr.set_handshakers
         Mgr.count].
  - destruct (Z.ltb_spec (Mgr.count m)
       (Z.of_nat (length (resize
          (Z.to_nat (size_mul (realloc_count_for (Mgr.count m)) sizeof_ptr
                     / sizeof_ptr)) None (Mgr.handshakers m)))))
      as [_ | Hbad]; [| lia].
    cbn [heap_mgr heap_args trace]. unfold grown. rewrite Hrc.
    rewrite <- !app_assoc. reflexivity.
  - destruct (Z.ltb_spec (Mgr.count m) (Z.of_nat (length (Mgr.handshakers m))))
      as [_ | Hbad]; [| lia].
    cbn [heap_mgr heap_args trace]. unfold grown. rewrite Hrc.
    rewrite <- !app_assoc. destruct m; reflexivity.
Qed.

Lemma ADDRESSABLE_HANDSHAKERS_eq : ADDRESSABLE_HANDSHAKERS = 2 ^ 60.
Proof. reflexivity. Qed.

(** At ADDRESSABLE_HANDSHAKERS itself the size of the doubled array, in
    bytes, wraps around to 0: the bound is where add stops making sense. *)
Remark realloc_size_wraps_at_bound :
  realloc_count_for ADDRESSABLE_HANDSHAKERS = 2 * ADDRESSABLE_HANDSHAKERS /\
  size_mul (realloc_count_for ADDRESSABLE_HANDSHAKERS) sizeof_ptr = 0.
Proof. split; vm_compute; reflexivity. Qed.

Lemma classic_pow2 c :
  (2 <= c /\ power_of_two c) \/ ~ (2 <= c /\ power_of_two c).
Proof.
  destruct (Z.le_gt_cases 2 c) as [H2 | H2]; [| right; lia].
  destruct (Z.eq_dec c (2 ^ Z.log2 c)) as [E | E].
  - left. split; [exact H2 |]. exists (Z.log2 c).
    split; [apply Z.log2_nonneg | exact E].
  - right. intros (_ & k & Hk & Hc). apply E. rewrite Hc at 2.
    rewrite Z.log2_pow2 by exact Hk. exact Hc.
Qed.

Lemma realloc_count_pow2 c :
  2 <= c < ADDRESSABLE_HANDSHAKERS ->
  power_of_two c ->
  realloc_count_for c = 2 * c.
Proof.
  intros Hc Hp. rewrite ADDRESSABLE_HANDSHAKERS_eq in Hc.
  unfold realloc_count_for.
  destruct (Z.eqb_spec c 0) as [E | _]; [lia |].
  destruct (Z.leb_spec 2 c) as [_ | Hbad]; [| lia].
  assert (Hpow : is_power_of_2 c = true).
  { apply is_power_of_2_iff; [rewrite SIZE_MOD_eq; lia | exact Hp]. }
  rewrite Hpow. cbn [andb]. unfold size_mul.
  rewrite size_wrap_small by (rewrite SIZE_MOD_eq; lia). lia.
Qed.

Lemma realloc_count_other c :
  1 <= c < SIZE_MOD ->
  ~ (2 <= c /\ power_of_two c) ->
  realloc_count_for c = 0.
Proof.
  intros Hc Hnp. unfold realloc_count_for.
  destruct (Z.eqb_spec c 0) as [E | _]; [lia |].
  destruct (Z.leb_spec 2 c) as [H2 | _]; [| reflexivity].
  destruct (is_power_of_2 c) eqn:Hpow; [| reflexivity].
  exfalso. apply Hnp. split; [exact H2 |].
  apply is_power_of_2_iff; [lia | exact Hpow].
Qed.

Lemma capacity_after_pow2 c :
  2 <= c -> power_of_two c ->
  capacity_after c = c /\ capacity_after (c + 1) = 2 * c.
Proof.
  intros Hc (k & Hk & ->). unfold capacity_after.
  destruct (Z.eqb_spec (2 ^ k) 0) as [E | _]; [lia |].
  destruct (Z.eqb_spec (2 ^ k) 1) as [E | _]; [lia |].
  destruct (Z.eqb_spec (2 ^ k + 1) 0) as [E | _]; [lia |].
  destruct (Z.eqb_spec (2 ^ k + 1) 1) as [E | _]; [lia |].
  rewrite Z.log2_up_pow2 by exact Hk.
  change (2 ^ k + 1) with (Z.succ (2 ^ k)).
  rewrite Z.log2_up_succ_pow2 by exact Hk.
  rewrite Z.pow_succ_r by exact Hk. split; reflexivity.
Qed.

Lemma capacity_after_other c :
  1 <= c -> ~ (2 <= c /\ power_of_two c) ->
  capacity_after (c + 1) = capacity_after c /\ c < capacity_after c.
Proof.
  intros Hc Hnp. destruct (Z.eq_dec c 1) as [-> | Hne]; [split; reflexivity |].
  assert (H2 : 2 <= c) by lia.
  assert (Hnp' : ~ power_of_two c) by (intros Hp; apply Hnp; split; assumption).
  unfold capacity_after.
  destruct (Z.eqb_spec c 0) as [E | _]; [lia |].
  destruct (Z.eqb_spec c 1) as [E | _]; [lia |].
  destruct (Z.eqb_spec (c + 1) 0) as [E | _]; [lia |].
  destruct (Z.eqb_spec (c + 1) 1) as [E | _]; [lia |].
  pose proof (Z.log2_up_spec c ltac:(lia)) as [_ Hup].
  pose proof (Z.log2_up_nonneg c) as Hnn.
  split.
  - change (c + 1) with (Z.succ c).
    destruct (Z.log2_up_succ_or c) as [Hs | Hs]; [| rewrite Hs; reflexivity].
    exfalso. apply Hnp'.
    apply (Z.log2_up_eq_succ_iff_pow2 c ltac:(lia)) in Hs.
    destruct Hs as (b & Hb). exists b. split; [| exact Hb].
    destruct (Z.le_gt_cases 0 b) as [Hb0 | Hb0]; [exact Hb0 |].
    rewrite Z.pow_neg_r in Hb by lia. lia.
  - destruct (Z.eq_dec c (2 ^ Z.log2_up c)) as [E | E]; [| lia].
    exfalso. apply Hnp'. exists (Z.log2_up c). split; assumption.
Qed.

Lemma capacity_after_ge n : 0 <= n -> n <= capacity_after n.
Proof.
  intros Hn. unfold capacity_after.
  destruct (Z.eqb_spec n 0) as [E | N0]; [lia |].
  destruct (Z.eqb_spec n 1) as [E | N1]; [lia |].
  apply (Z.log2_up_spec n). lia.
Qed.

(** From the second add on, the capacity is the smallest power of two that
    is no less than the count. *)
Lemma capacity_after_smallest n :
  2 <= n ->
  power_of_two (capacity_after n) /\
  n <= capacity_after n /\
  forall p, power_of_two p -> n <= p -> capacity_after n <= p.
Proof.
  intros Hn. unfold capacity_after.
  destruct (Z.eqb_spec n 0) as [E | _]; [lia |].
  destruct (Z.eqb_spec n 1) as [E | _]; [lia |].
  pose proof (Z.log2_up_spec n ltac:(lia)) as [Hlo Hup].
  pose proof (Z.log2_up_nonneg n) as Hnn.
  split; [exists (Z.log2_up n); split; [exact Hnn | reflexivity] |].
  split; [exact Hup |].
  intros p (j & Hj & ->) Hle.
  apply Z.pow_le_mono_r; [lia |].
  assert (Hlt : 2 ^ Z.pred (Z.log2_up n) < 2 ^ j) by lia.
  apply Z.pow_lt_mono_r_iff in Hlt; lia.
Qed.

(** The array before the write, for a manager filled by add alone. *)
Lemma grown_capacity hs (m : grpc_handshake_manager) :
  allocated hs m ->
  Z.of_nat (length hs) < ADDRESSABLE_HANDSHAKERS ->
  Z.of_nat (length (grown m)) = capacity_after (Z.of_nat (length hs) + 1) /\
  Mgr.count m < Z.of_nat (length (grown m)).
Proof.
  intros ((Hc & Hlt & Hslots) & Hcap) Hadd. unfold capacity in Hcap.
  pose proof ADDRESSABLE_HANDSHAKERS_eq as HA. pose proof SIZE_MOD_eq as HS.
  unfold grown. rewrite Hc. set (c := Z.of_nat (length hs)) in *.
  destruct (Z.eq_dec c 0) as [E0 | E0].
  - rewrite E0. change (realloc_count_for 0) with 2. cbn [Z.ltb Z.compare].
    rewrite length_resize. split; reflexivity.
  - destruct (classic_pow2 c) as [Hp | Hnp].
    + rewrite (realloc_count_pow2 c) by (try apply Hp; lia).
      destruct Hp as [H2 Hp].
      destruct (capacity_after_pow2 c H2 Hp) as [_ Hnext]. rewrite Hnext.
      destruct (Z.ltb_spec 0 (2 * c)) as [_ | Hbad]; [| lia].
      rewrite length_resize. unfold size_mul, sizeof_ptr.
      rewrite size_wrap_small by lia.
      replace (2 * c * 8) with (2 * c * 8 + 0) by lia.
      rewrite Z.div_add_l by lia. cbn [Z.div]. rewrite Z.div_0_l by lia. lia.
    + rewrite (realloc_count_other c) by (try exact Hnp; lia).
      cbn [Z.ltb Z.compare].
      destruct (capacity_after_other c ltac:(lia) Hnp) as [Hnext Hin].
      rewrite Hnext, Hcap. lia.
Qed.

Lemma grown_lookup hs (m : grpc_handshake_manager) (i : nat) :
  allocated hs m ->
  Z.of_nat (length hs) < ADDRESSABLE_HANDSHAKERS ->
  (i < length hs)%nat ->
  grown m !! i = Mgr.handshakers m !! i.
Proof.
  intros Hal Hadd Hi.
  destruct (grown_capacity hs m Hal Hadd) as [Hlen Hin].
  destruct Hal as ((Hc & Hlt & Hslots) & Hcap). unfold capacity in Hcap.
  pose proof (capacity_after_ge (Z.of_nat (length hs)) ltac:(lia)) as Hge.
  revert Hlen Hin. unfold grown.
  destruct (0 <? realloc_count_for (Mgr.count m)); [| reflexivity].
  rewrite length_resize. intros Hlen Hin.
  apply lookup_resize; lia.
Qed.

(** One add on a manager filled by add alone. *)
Lemma add_allocated hs (m : grpc_handshake_manager) a t h :
  allocated hs m ->
  Z.of_nat (length hs) < ADDRESSABLE_HANDSHAKERS ->
  let m' := Mgr.set_count (Mgr.count m + 1)
              (Mgr.set_handshakers
                 (<[length hs := Some h]> (grown m)) m) in
  grpc_handshake_manager_add h (World (Some m) a t)
  = Ok tt (World (Some m') a
             (t ++ [ev_mu_lock]
                ++ (if 0 <? realloc_count_for (Mgr.count m)
                    then [ev_realloc_handshakers
                            (size_mul (realloc_count_for (Mgr.count m)) sizeof_ptr)]
                    else [])
                ++ [ev_mu_unlock])) /\
  allocated (hs ++ [h]) m'.
Proof.
  intros Hal Hadd m'.
  destruct (grown_capacity hs m Hal Hadd) as [Hlen Hin].
  pose proof (fun i => grown_lookup hs m i Hal Hadd) as Hold.
  pose proof Hal as ((Hc & Hlt & Hslots) & Hcap).
  pose proof ADDRESSABLE_HANDSHAKERS_eq as HA. pose proof SIZE_MOD_eq as HS.
  split.
  - rewrite (add_run m a t h Hin). subst m'.
    unfold size_add. rewrite size_wrap_small by lia.
    rewrite Hc, Nat2Z.id. reflexivity.
  - subst m'. split; [split; [| split] |].
    + cbn. rewrite length_app. cbn. lia.
    + rewrite length_app. cbn. lia.
    + intros i x Hx. cbn [Mgr.handshakers Mgr.set_handshakers Mgr.set_count].
      destruct (Nat.eq_dec i (length hs)) as [-> | Hne].
      * rewrite lookup_app_r in Hx by lia. rewrite Nat.sub_diag in Hx.
        cbn in Hx. injection Hx as <-.
        apply list_lookup_insert_eq. lia.
      * pose proof (lookup_lt_Some _ _ _ Hx) as Hi.
        rewrite length_app in Hi. cbn in Hi.
        rewrite lookup_app_l in Hx by lia.
        rewrite list_lookup_insert_ne by lia.
        rewrite Hold by lia. apply Hslots. exact Hx.
    + unfold capacity. cbn [Mgr.handshakers Mgr.set_handshakers Mgr.set_count].
      rewrite length_insert, length_app. cbn [length].
      rewrite Hlen. f_equal. lia.
Qed.

Lemma create_run :
  grpc_handshake_manager_create empty_world
  = Ok tt (World (Some (Mgr.set_refs 1 Mgr.zero)) None [ev_malloc_mgr; ev_mu_init]).
Proof. reflexivity. Qed.

Lemma create_allocated : allocated [] (Mgr.set_refs 1 Mgr.zero).
Proof.
  split; [| reflexivity].
  split; [reflexivity | split; [reflexivity |]]. intros i h Hh. discriminate Hh.
Qed.

(** A run of adds on a manager filled by add alone: it ends, and only the
    count and the array have moved. *)
Lemma add_all_allocated more :
  forall hs (m : grpc_handshake_manager) a t,
    allocated hs m ->
    Z.of_nat (length (hs ++ more)) <= ADDRESSABLE_HANDSHAKERS ->
    exists m' t',
      add_all more (World (Some m) a t) = Ok tt (World (Some m') a t') /\
      allocated (hs ++ more) m' /\
      Mgr.refs m' = Mgr.refs m /\
      Mgr.index m' = Mgr.index m.
Proof.
  induction more as [| h more IH]; intros hs m a t Hal Hlen.
  - exists m, t. rewrite app_nil_r. repeat split; try reflexivity; apply Hal.
  - rewrite length_app in Hlen. cbn [length] in Hlen.
    destruct (add_allocated hs m a t h Hal ltac:(lia)) as [Hrun Hal'].
    destruct (IH (hs ++ [h]) _ a
                 (t ++ [ev_mu_lock]
                    ++ (if 0 <? realloc_count_for (Mgr.count m)
                        then [ev_realloc_handshakers
                                (size_mul (realloc_count_for (Mgr.count m))
                                          sizeof_ptr)]
                        else [])
                    ++ [ev_mu_unlock]) Hal')
      as (m' & t' & Hrun' & Hal'' & Hrefs & Hidx).
    { rewrite !length_app. cbn [length]. lia. }
    exists m', t'. cbn [add_all]. unfold bind. rewrite Hrun.
    rewrite <- app_assoc in Hal''. cbn [app] in Hal''.
    repeat split; try assumption; apply Hal''.
Qed.

(** create, then the adds: a manager filled by add alone. *)
Lemma create_add_all hs :
  Z.of_nat (length hs) <= ADDRESSABLE_HANDSHAKERS ->
  exists m t,
    (grpc_handshake_manager_create ;;; add_all hs) empty_world
    = Ok tt (World (Some m) None t) /\
    allocated hs m /\
    Mgr.refs m = 1 /\
    Mgr.index m = 0.
Proof.
  intros Hlen. unfold bind. rewrite create_run.
  destruct (add_all_allocated hs [] (Mgr.set_refs 1 Mgr.zero) None
              [ev_malloc_mgr; ev_mu_init] create_allocated Hlen)
    as (m & t & Hrun & Hal & Hrefs & Hidx).
  exists m, t. repeat split; try assumption; apply Hal.
Qed.

Lemma reallocs_add_events (rc : Z) :
  reallocs ([ev_mu_lock]
              ++ (if 0 <? rc
                  then [ev_realloc_handshakers (size_mul rc sizeof_ptr)]
                  else [])
              ++ [ev_mu_unlock])
  = if 0 <? rc then [size_mul rc sizeof_ptr] else [].
Proof. destruct (0 <? rc); reflexivity. Qed.

(** C9: on a manager made by create and filled by add, the next add
    reallocates the array exactly when the count before it is 0 (to 2
    slots) or is at least 2 and a power of two (to twice the count); it
    writes the handshaker at the index that the count was, keeps the
    earlier ones, and moves the count up by one. *)
Theorem add_reallocates_exactly hs h :
  Z.of_nat (length hs) < ADDRESSABLE_HANDSHAKERS ->
  exists (m : grpc_handshake_manager) t (m' : grpc_handshake_manager) t',
    (grpc_handshake_manager_create ;;; add_all hs) empty_world
    = Ok tt (World (Some m) None t) /\
    grpc_handshake_manager_add h (World (Some m) None t)
    = Ok tt (World (Some m') None t') /\
    Mgr.count m = Z.of_nat (length hs) /\
    Mgr.count m' = Mgr.count m + 1 /\
    Mgr.handshakers m' !! length hs = Some (Some h) /\
    (forall (i : nat) x, hs !! i = Some x ->
                         Mgr.handshakers m' !! i = Some (Some x)) /\
    (Mgr.count m = 0 ->
     reallocs (drop (length t) t') = [2 * sizeof_ptr] /\ capacity m' = 2) /\
    (2 <= Mgr.count m -> power_of_two (Mgr.count m) ->
     reallocs (drop (length t) t') = [2 * Mgr.count m * sizeof_ptr] /\
     capacity m' = 2 * Mgr.count m) /\
    (Mgr.count m <> 0 -> ~ (2 <= Mgr.count m /\ power_of_two (Mgr.count m)) ->
     reallocs (drop (length t) t') = [] /\ capacity m' = capacity m).
Proof.
  intros Hlen.
  destruct (create_add_all hs ltac:(lia)) as (m & t & Hrun & Hal & _ & _).
  destruct (add_allocated hs m None t h Hal Hlen) as [Hadd Hal'].
  pose proof Hal as ((Hc & Hlt & Hslots) & Hcap).
  pose proof Hal' as ((Hc' & _ & Hslots') & Hcap').
  pose proof ADDRESSABLE_HANDSHAKERS_eq as HA. pose proof SIZE_MOD_eq as HS.
  eexists m, t, _, _. split; [exact Hrun |]. split; [exact Hadd |].
  split; [exact Hc |]. split; [reflexivity |].
  split.
  { apply Hslots'. rewrite lookup_app_r by lia. rewrite Nat.sub_diag.
    reflexivity. }
  split.
  { intros i x Hx. apply Hslots'. rewrite lookup_app_l; [exact Hx |].
    apply (lookup_lt_Some _ _ _ Hx). }
  rewrite drop_app_length, reallocs_add_events, Hcap'.
  rewrite length_app. cbn [length].
  replace (Z.of_nat (length hs + 1)) with (Mgr.count m + 1) by lia.
  split; [| split].
  - intros E0. rewrite E0. split; reflexivity.
  - intros H2 Hp.
    rewrite (realloc_count_pow2 (Mgr.count m)) by (try exact Hp; lia).
    destruct (Z.ltb_spec 0 (2 * Mgr.count m)) as [_ | Hbad]; [| lia].
    unfold size_mul. rewrite size_wrap_small by (unfold sizeof_ptr; lia).
    split; [reflexivity |]. apply capacity_after_pow2; assumption.
  - intros Hne Hnp.
    rewrite (realloc_count_other (Mgr.count m)) by (try exact Hnp; lia).
    split; [reflexivity |]. rewrite Hcap, <- Hc.
    apply capacity_after_other; [lia | exact Hnp].
Qed.

Lemma add_reallocates_exactly_witness :
  exists (m : grpc_handshake_manager) t (m' : grpc_handshake_manager) t',
    (grpc_handshake_manager_create ;;; add_all [10; 11; 12; 13]) empty_world
    = Ok tt (World (Some m) None t) /\
    grpc_handshake_manager_add 14 (World (Some m) None t)
    = Ok tt (World (Some m') None t') /\
    Mgr.count m = Z.of_nat (length [10; 11; 12; 13]) /\
    Mgr.count m' = Mgr.count m + 1 /\
    Mgr.handshakers m' !! length [10; 11; 12; 13] = Some (Some 14) /\
    (forall (i : nat) x, [10; 11; 12; 13] !! i = Some x ->
                         Mgr.handshakers m' !! i = Some (Some x)) /\
    (Mgr.count m = 0 ->
     reallocs (drop (length t) t') = [2 * sizeof_ptr] /\ capacity m' = 2) /\
    (2 <= Mgr.count m -> power_of_two (Mgr.count m) ->
     reallocs (drop (length t) t') = [2 * Mgr.count m * sizeof_ptr] /\
     capacity m' = 2 * Mgr.count m) /\
    (Mgr.count m <> 0 -> ~ (2 <= Mgr.count m /\ power_of_two (Mgr.count m)) ->
     reallocs (drop (length t) t') = [] /\ capacity m' = capacity m).
Proof.
  apply (add_reallocates_exactly [10; 11; 12; 13] 14).
  vm_compute. reflexivity.
Defined.

(** C10: on a manager made by create and filled by add, the count never
    exceeds the capacity (2 after the first add, then the smallest power
    of two no less than the count), and the next add writes inside the
    array, also at count 1, where nothing is reallocated. *)
Theorem add_writes_in_bounds hs :
  Z.of_nat (length hs) <= ADDRESSABLE_HANDSHAKERS ->
  exists (m : grpc_handshake_manager) t,
    (grpc_handshake_manager_create ;;; add_all hs) empty_world
    = Ok tt (World (Some m) None t) /\
    Mgr.count m = Z.of_nat (length hs) /\
    Mgr.count m <= capacity m /\
    (Mgr.count m = 1 -> capacity m = 2) /\
    (2 <= Mgr.count m ->
     power_of_two (capacity m) /\
     forall p, power_of_two p -> Mgr.count m <= p -> capacity m <= p) /\
    (forall h, Mgr.count m < ADDRESSABLE_HANDSHAKERS ->
       Mgr.count m < Z.of_nat (length (grown m)) /\
       (exists (m' : grpc_handshake_manager) t',
          grpc_handshake_manager_add h (World (Some m) None t)
          = Ok tt (World (Some m') None t') /\
          Mgr.handshakers m' !! Z.to_nat (Mgr.count m) = Some (Some h) /\
          (Mgr.count m = 1 ->
           reallocs (drop (length t) t') = [] /\ capacity m' = 2))).
Proof.
  intros Hlen.
  destruct (create_add_all hs Hlen) as (m & t & Hrun & Hal & _ & _).
  pose proof Hal as ((Hc & Hlt & Hslots) & Hcap).
  exists m, t. split; [exact Hrun |]. split; [exact Hc |].
  rewrite Hcap, Hc.
  split; [apply capacity_after_ge; lia |].
  split; [intros ->; reflexivity |].
  split.
  { intros H2. destruct (capacity_after_smallest _ H2) as (Hp & _ & Hmin).
    split; assumption. }
  intros h Hadd.
  destruct (grown_capacity hs m Hal Hadd) as [Hglen Hin].
  destruct (add_allocated hs m None t h Hal Hadd) as [Hrun' Hal'].
  pose proof Hal' as ((_ & _ & Hslots') & Hcap').
  split; [lia |].
  eexists _, _. split; [exact Hrun' |]. split.
  { rewrite Nat2Z.id. apply Hslots'. rewrite lookup_app_r by lia.
    rewrite Nat.sub_diag. reflexivity. }
  intros H1. rewrite drop_app_length, reallocs_add_events, Hcap', Hc, H1.
  rewrite length_app. cbn [length].
  replace (Z.of_nat (length hs + 1)) with 2 by lia. split; reflexivity.
Qed.

Lemma add_writes_in_bounds_witness :
  exists (m : grpc_handshake_manager) t,
    (grpc_handshake_manager_create ;;; add_all [10]) empty_world
    = Ok tt (World (Some m) None t) /\
    Mgr.count m = Z.of_nat (length [10]) /\
    Mgr.count m <= capacity m /\
    (Mgr.count m = 1 -> capacity m = 2) /\
    (2 <= Mgr.count m ->
     power_of_two (capacity m) /\
     forall p, power_of_two p -> Mgr.count m <= p -> capacity m <= p) /\
    (forall h, Mgr.count m < ADDRESSABLE_HANDSHAKERS ->
       Mgr.count m < Z.of_nat (length (grown m)) /\
       (exists (m' : grpc_handshake_manager) t',
          grpc_handshake_manager_add h (World (Some m) None t)
          = Ok tt (World (Some m') None t') /\
          Mgr.handshakers m' !! Z.to_nat (Mgr.count m) = Some (Some h) /\
          (Mgr.count m = 1 ->
           reallocs (drop (length t) t') = [] /\ capacity m' = 2))).
Proof.
  apply (add_writes_in_bounds [10]).
  vm_compute. discriminate.
Defined.

(** ** The manager among its users: counting events and references *)

Lemma tally_app {A} (p : A -> bool) l1 l2 :
  tally p (l1 ++ l2) = tally p l1 + tally p l2.
Proof. induction l1 as [| x l1 IH]; cbn; [reflexivity | rewrite IH; lia]. Qed.

Lemma tally_nonneg {A} (p : A -> bool) l : 0 <= tally p l.
Proof. induction l as [| x l IH]; cbn; [lia | destruct (p x); lia]. Qed.

Lemma tally_map_false {A B} (p : B -> bool) (g : A -> B) l :
  (forall x, p (g x) = false) -> tally p (map g l) = 0.
Proof.
  intros Hp. induction l as [| x l IH]; cbn; [reflexivity |].
  rewrite Hp, IH. reflexivity.
Qed.

Lemma teardown_app t1 t2 : teardown (t1 ++ t2) = teardown t1 ++ teardown t2.
Proof. apply omap_app. Qed.

Lemma teardown_shutdown_events hs : teardown (shutdown_events hs) = [].
Proof.
  unfold shutdown_events. rewrite !teardown_app. cbn.
  induction hs as [| h hs IH]; [reflexivity | exact IH].
Qed.

Lemma teardown_destroy_events hs :
  teardown (destroy_events hs) = destroy_events hs.
Proof.
  unfold destroy_events. rewrite teardown_app. cbn. f_equal.
  induction hs as [| h hs IH]; [reflexivity |]. cbn. f_equal. exact IH.
Qed.

Lemma tally_shutdown_events (p : event -> bool) hs :
  p ev_mu_lock = false -> p ev_mu_unlock = false ->
  (forall h, p (ev_handshaker_shutdown h) = false) ->
  tally p (shutdown_events hs) = 0.
Proof.
  intros H1 H2 H3. unfold shutdown_events. rewrite !tally_app. cbn.
  rewrite H1, H2, (tally_map_false p _ hs H3). reflexivity.
Qed.

Lemma tally_destroy_events (p : event -> bool) hs :
  p ev_free_handshakers = false -> p ev_mu_destroy = false ->
  p ev_free_mgr = false ->
  (forall h, p (ev_handshaker_destroy h) = false) ->
  tally p (destroy_events hs) = 0.
Proof.
  intros H1 H2 H3 H4. unfold destroy_events. rewrite !tally_app. cbn.
  rewrite H1, H2, H3, (tally_map_false p _ hs H4). reflexivity.
Qed.

Lemma added_app acts a :
  added (acts ++ [a])
  = added acts ++ match a with act_add h => [h] | _ => [] end.
Proof. unfold added. rewrite omap_app. destruct a; reflexivity. Qed.

(** How the owners' references move with one action and its events. *)
Lemma chain_ref_step acts a t evs :
  chain_ref (acts ++ [a]) (t ++ evs)
  = chain_ref acts t + tally is_start evs - (if is_report a then 1 else 0).
Proof. unfold chain_ref. rewrite !tally_app. cbn. lia. Qed.

Lemma timer_refs_step acts a t evs :
  timer_refs (acts ++ [a]) (t ++ evs)
  = timer_refs acts t + tally is_timer_init evs - (if is_timer a then 1 else 0).
Proof. unfold timer_refs. rewrite !tally_app. cbn. lia. Qed.

Lemma caller_ref_step acts a :
  caller_ref (acts ++ [a]) = if is_destroy a then 0 else caller_ref acts.
Proof.
  unfold caller_ref. rewrite tally_app. cbn.
  pose proof (tally_nonneg is_destroy acts) as Hn.
  destruct (is_destroy a).
  - destruct (Z.eqb_spec (tally is_destroy acts + (1 + 0)) 0); [lia | reflexivity].
  - rewrite Z.add_0_r. reflexivity.
Qed.

Lemma caller_ref_range acts : 0 <= caller_ref acts <= 1.
Proof. unfold caller_ref. destruct (tally is_destroy acts =? 0); lia. Qed.

Lemma add_events_quiet c :
  tally is_start (add_events c) = 0 /\ tally is_sched (add_events c) = 0 /\
  tally is_timer_init (add_events c) = 0 /\ teardown (add_events c) = [].
Proof. unfold add_events. destruct (0 <? realloc_count_for c); repeat split. Qed.

Lemma shutdown_events_quiet hs :
  tally is_start (shutdown_events hs) = 0 /\
  tally is_sched (shutdown_events hs) = 0 /\
  tally is_timer_init (shutdown_events hs) = 0 /\
  teardown (shutdown_events hs) = [].
Proof.
  repeat split; try (apply tally_shutdown_events; reflexivity).
  apply teardown_shutdown_events.
Qed.

Lemma destroy_events_quiet hs :
  tally is_start (destroy_events hs) = 0 /\
  tally is_sched (destroy_events hs) = 0 /\
  tally is_timer_init (destroy_events hs) = 0.
Proof. repeat split; apply tally_destroy_events; reflexivity. Qed.

(** do_handshake when a handshaker is registered: the first one starts. *)
Lemma do_handshake_first h0 hs' (m : grpc_handshake_manager) a0 t ep ca dl acc
    cbk ud :
  registered (h0 :: hs') m ->
  Mgr.index m = 0 ->
  grpc_handshake_manager_do_handshake ep ca dl acc cbk ud (World (Some m) a0 t)
  = Ok tt (World (Some (Mgr.set_index 1 (chain_start m dl acc cbk ud)))
                 (Some (chain_args ep ca))
                 (t ++ [ev_mu_lock;
                        ev_timer_init dl (Closure cb_on_timeout ptr_mgr);
                        ev_handshaker_do_handshake h0 acc
                          (Closure cb_call_next_handshaker ptr_args)
                          (chain_args ep ca);
                        ev_mu_unlock])).
Proof.
  intros Hreg Hi. rewrite do_handshake_run by exact Hi. unfold bind.
  assert (Hreg1 : registered (h0 :: hs') (chain_start m dl acc cbk ud))
    by exact Hreg.
  rewrite (locked_continue (h0 :: hs') _ _ _ h0 Hreg1).
  - unfold gpr_mu_unlock, emit. cbn. rewrite Hi, <- !app_assoc. reflexivity.
  - cbn. lia.
  - cbn. rewrite Hi. reflexivity.
Qed.

(** A report that ends the chain. *)
Lemma report_terminal hs (m : grpc_handshake_manager) a t e :
  registered hs m ->
  Args.user_data a = ptr_mgr ->
  0 <= Mgr.index m <= Mgr.count m ->
  e <> GRPC_ERROR_NONE \/ Mgr.index m = Mgr.count m ->
  call_next_handshaker ptr_args e (World (Some m) (Some a) t)
  = Ok tt (World (if Mgr.refs m =? 1 then None
                  else Some (Mgr.set_refs (Mgr.refs m - 1) (at_terminal m)))
                 (Some (Args.set_user_data (Mgr.user_data m) a))
                 (t ++ [ev_mu_lock] ++ terminal_events m a e
                    ++ (if Mgr.refs m =? 1 then destroy_events hs else [])
                    ++ [ev_mu_unlock])).
Proof.
  intros Hreg Hu Hi Hterm. rewrite call_next_handshaker_run by exact Hu.
  unfold bind. rewrite locked_terminal by assumption.
  assert (Hreg' : registered hs (at_terminal m)) by exact Hreg.
  rewrite (unref_run hs _ _ _ Hreg').
  unfold gpr_mu_unlock, emit. cbn. rewrite <- !app_assoc. reflexivity.
Qed.

(** A report of success while handshakers remain. *)
Lemma report_continue hs (m : grpc_handshake_manager) a t h :
  registered hs m ->
  Args.user_data a = ptr_mgr ->
  0 <= Mgr.index m ->
  hs !! Z.to_nat (Mgr.index m) = Some h ->
  call_next_handshaker ptr_args GRPC_ERROR_NONE (World (Some m) (Some a) t)
  = Ok tt (World (Some (Mgr.set_index (Mgr.index m + 1) m)) (Some a)
                 (t ++ advance_events m a h)).
Proof.
  intros Hreg Hu Hi Hh. rewrite call_next_handshaker_run by exact Hu.
  unfold bind. rewrite (locked_continue hs m a _ h Hreg Hi Hh).
  unfold gpr_mu_unlock, emit, advance_events. cbn.
  rewrite <- !app_assoc. reflexivity.
Qed.

(** The timeout callback. *)
Lemma on_timeout_run hs (m : grpc_handshake_manager) a t e :
  registered hs m ->
  on_timeout ptr_mgr e (World (Some m) a t)
  = Ok tt (World (if Mgr.refs m =? 1 then None
                  else Some (Mgr.set_refs (Mgr.refs m - 1) m))
                 a
                 (t ++ (if grpc_error_is_none e then shutdown_events hs else [])
                    ++ (if Mgr.refs m =? 1 then destroy_events hs else []))).
Proof.
  intros Hreg. unfold on_timeout. unfold bind at 1. cbn [as_mgr ret].
  unfold bind at 1. destruct e as [| code]; cbn [grpc_error_is_none].
  - rewrite (shutdown_run hs m a t Hreg), (unref_run hs m a _ Hreg).
    rewrite <- app_assoc. reflexivity.
  - cbn [ret]. rewrite (unref_run hs m a _ Hreg). reflexivity.
Qed.

Ltac owners_step :=
  rewrite ?chain_ref_step, ?timer_refs_step, ?caller_ref_step.

Lemma step_add acts m ha t h :
  invariant acts (World (Some m) ha t) ->
  enabled (act_add h) acts (World (Some m) ha t) = true ->
  step_ok acts m ha t (act_add h).
Proof.
  intros [Hch Htm Hsc Harm Hadded Hheap] Hen.
  cbn [heap_mgr heap_args trace] in Hch, Htm, Hsc, Harm, Hheap.
  destruct Hheap as (Hal & Hidx & Hidx1 & Hrefs & Hr1 & Hargs & Htd).
  cbn [enabled heap_mgr] in Hen. apply andb_true_iff in Hen as [Hcaller Hlt].
  apply Z.ltb_lt in Hlt.
  pose proof Hal as ((Hc & _ & _) & _). rewrite Hc in Hlt.
  destruct (add_allocated (added acts) m ha t h Hal Hlt) as [Hrun Hal'].
  fold (add_events (Mgr.count m)) in Hrun.
  destruct (add_events_quiet (Mgr.count m)) as (Hq1 & Hq2 & Hq3 & Hq4).
  eexists. split; [exact Hrun |]. split.
  - constructor; cbn [heap_mgr heap_args trace]; owners_step;
      rewrite ?Hq1, ?Hq3; cbn [is_report is_timer is_destroy].
    + lia.
    + lia.
    + rewrite tally_app, tally_app, Hq2. cbn. lia.
    + rewrite ?tally_app, ?Hq3, ?Hs3. cbn. lia.
    + rewrite added_app, length_app. cbn [length]. lia.
    + rewrite added_app. split; [exact Hal' |].
      cbn [Mgr.index Mgr.count Mgr.refs Mgr.set_count Mgr.set_handshakers].
      split; [lia |]. split; [intros H; apply Hidx1; lia |].
      split; [lia |]. split; [exact Hr1 |].
      split; [intros H; apply Hargs; lia |].
      rewrite teardown_app, Htd, Hq4. reflexivity.
  - intros m' [= <-]. cbn. lia.
Qed.

Lemma step_shutdown acts m ha t :
  invariant acts (World (Some m) ha t) ->
  step_ok acts m ha t act_shutdown.
Proof.
  intros [Hch Htm Hsc Harm Hadded Hheap].
  cbn [heap_mgr heap_args trace] in Hch, Htm, Hsc, Harm, Hheap.
  destruct Hheap as (Hal & Hidx & Hidx1 & Hrefs & Hr1 & Hargs & Htd).
  pose proof Hal as (Hreg & _).
  destruct (shutdown_events_quiet (added acts)) as (Hq1 & Hq2 & Hq3 & Hq4).
  eexists. split; [apply (shutdown_run _ _ _ _ Hreg) |]. split.
  - constructor; cbn [heap_mgr heap_args trace]; owners_step;
      rewrite ?Hq1, ?Hq3; cbn [is_report is_timer is_destroy].
    + lia.
    + lia.
    + rewrite tally_app, tally_app, Hq2. cbn. lia.
    + rewrite ?tally_app, ?Hq3, ?Hs3. cbn. lia.
    + rewrite added_app, app_nil_r. exact Hadded.
    + rewrite added_app, app_nil_r. split; [exact Hal |].
      split; [lia |]. split; [intros H; apply Hidx1; lia |].
      split; [lia |]. split; [exact Hr1 |].
      split; [intros H; apply Hargs; lia |].
      rewrite teardown_app, Htd, Hq4. reflexivity.
  - intros m' [= <-]. lia.
Qed.

Lemma release_events_quiet (last : bool) hs :
  tally is_start (if last then destroy_events hs else []) = 0 /\
  tally is_sched (if last then destroy_events hs else []) = 0 /\
  tally is_timer_init (if last then destroy_events hs else []) = 0 /\
  teardown (if last then destroy_events hs else [])
  = if last then destroy_events hs else [].
Proof.
  destruct last; [| repeat split].
  destruct (destroy_events_quiet hs) as (H1 & H2 & H3).
  repeat split; try assumption. apply teardown_destroy_events.
Qed.

Lemma step_destroy acts m ha t :
  invariant acts (World (Some m) ha t) ->
  enabled act_destroy acts (World (Some m) ha t) = true ->
  step_ok acts m ha t act_destroy.
Proof.
  intros [Hch Htm Hsc Harm Hadded Hheap] Hen.
  cbn [heap_mgr heap_args trace] in Hch, Htm, Hsc, Harm, Hheap.
  destruct Hheap as (Hal & Hidx & Hidx1 & Hrefs & Hr1 & Hargs & Htd).
  cbn [enabled] in Hen.
  assert (Hcaller : caller_ref acts = 1) by (unfold caller_ref; rewrite Hen; reflexivity).
  pose proof Hal as (Hreg & _).
  destruct (release_events_quiet (Mgr.refs m =? 1) (added acts))
    as (Hq1 & Hq2 & Hq3 & Hq4).
  eexists. split; [apply (unref_run _ _ _ _ Hreg) |]. split.
  - constructor; cbn [heap_mgr heap_args trace]; owners_step;
      rewrite ?Hq1, ?Hq3; cbn [is_report is_timer is_destroy].
    + lia.
    + lia.
    + rewrite tally_app, tally_app, Hq2. cbn. lia.
    + rewrite ?tally_app, ?Hq3, ?Hs3. cbn. lia.
    + rewrite added_app, app_nil_r. exact Hadded.
    + rewrite added_app, app_nil_r, teardown_app, Htd, Hq4.
      destruct (Z.eqb_spec (Mgr.refs m) 1) as [E | E].
      * split; [lia | reflexivity].
      * split; [exact Hal |].
        cbn [Mgr.index Mgr.count Mgr.refs Mgr.set_refs].
        split; [lia |]. split; [intros H; apply Hidx1; lia |].
        split; [lia |]. split; [lia |].
        split; [intros H; apply Hargs; lia | reflexivity].
  - destruct (Mgr.refs m =? 1); intros m' [= <-]. cbn. lia.
Qed.

Lemma step_timer acts m ha t e :
  invariant acts (World (Some m) ha t) ->
  enabled (act_timer e) acts (World (Some m) ha t) = true ->
  step_ok acts m ha t (act_timer e).
Proof.
  intros [Hch Htm Hsc Harm Hadded Hheap] Hen.
  cbn [heap_mgr heap_args trace] in Hch, Htm, Hsc, Harm, Hheap.
  destruct Hheap as (Hal & Hidx & Hidx1 & Hrefs & Hr1 & Hargs & Htd).
  cbn [enabled trace] in Hen. apply Z.ltb_lt in Hen.
  pose proof (caller_ref_range acts) as Hcr.
  pose proof Hal as (Hreg & _).
  destruct (release_events_quiet (Mgr.refs m =? 1) (added acts))
    as (Hq1 & Hq2 & Hq3 & Hq4).
  assert (Hs : tally is_start
                 (if grpc_error_is_none e then shutdown_events (added acts) else []) = 0
               /\ tally is_sched
                    (if grpc_error_is_none e then shutdown_events (added acts) else []) = 0
               /\ tally is_timer_init
                    (if grpc_error_is_none e then shutdown_events (added acts) else []) = 0
               /\ teardown
                    (if grpc_error_is_none e then shutdown_events (added acts) else []) = []).
  { destruct (grpc_error_is_none e); [apply shutdown_events_quiet | repeat split]. }
  destruct Hs as (Hs1 & Hs2 & Hs3 & Hs4).
  eexists. split; [apply (on_timeout_run _ _ _ _ e Hreg) |]. split.
  - constructor; cbn [heap_mgr heap_args trace]; owners_step;
      rewrite ?tally_app, ?Hq1, ?Hq3, ?Hs1, ?Hs3;
      cbn [is_report is_timer is_destroy].
    + lia.
    + lia.
    + rewrite Hq2, Hs2. cbn. lia.
    + rewrite ?tally_app, ?Hq3, ?Hs3. cbn. lia.
    + rewrite added_app, app_nil_r. exact Hadded.
    + rewrite added_app, app_nil_r, !teardown_app, Htd, Hq4, Hs4.
      destruct (Z.eqb_spec (Mgr.refs m) 1) as [E | E].
      * split; [lia | reflexivity].
      * split; [exact Hal |].
        cbn [Mgr.index Mgr.count Mgr.refs Mgr.set_refs].
        split; [lia |]. split; [intros H; apply Hidx1; lia |].
        split; [lia |]. split; [lia |].
        split; [intros H; apply Hargs; lia | reflexivity].
  - destruct (Mgr.refs m =? 1); intros m' [= <-]. cbn. lia.
Qed.

Lemma step_do_handshake acts m ha t ep ca dl acc cbk ud :
  invariant acts (World (Some m) ha t) ->
  enabled (act_do_handshake ep ca dl acc cbk ud) acts (World (Some m) ha t)
  = true ->
  step_ok acts m ha t (act_do_handshake ep ca dl acc cbk ud).
Proof.
  intros [Hch Htm Hsc Harm Hadded Hheap] Hen.
  cbn [heap_mgr heap_args trace] in Hch, Htm, Hsc, Harm, Hheap.
  destruct Hheap as (Hal & Hidx & Hidx1 & Hrefs & Hr1 & Hargs & Htd).
  cbn [enabled heap_mgr] in Hen. apply andb_true_iff in Hen as [Hcaller Hi].
  apply Z.eqb_eq in Hi.
  assert (Hc0 : chain_ref acts t = 0).
  { destruct (Z.eq_dec (chain_ref acts t) 1) as [E | E]; [| lia].
    specialize (Hidx1 E). lia. }
  pose proof Hal as (Hreg & Hcap).
  destruct (added acts) as [| h0 hs'] eqn:Hadd.
  - eexists. split.
    { apply (chain_run_empty m ha t ep ca dl acc cbk ud Hreg Hi Hr1). }
    split.
    + constructor; cbn [heap_mgr heap_args trace]; owners_step;
        cbn [is_report is_timer is_destroy is_do_handshake].
      * cbn. lia.
      * cbn. lia.
      * rewrite !tally_app. cbn. lia.
      * rewrite ?tally_app, ?Hq3, ?Hs3. cbn. lia.
      * rewrite added_app, app_nil_r, Hadd. exact Hadded.
      * rewrite added_app, app_nil_r, Hadd.
        split; [exact Hal |]. cbn. split; [lia |]. split; [lia |].
        split; [lia |]. split; [lia |]. split; [lia |].
        rewrite teardown_app, Htd. reflexivity.
    + intros m' [= <-]. cbn. lia.
  - eexists. split.
    { apply (do_handshake_first h0 hs' m ha t ep ca dl acc cbk ud Hreg Hi). }
    pose proof Hreg as (Hc & _ & _). cbn [length] in Hc.
    split.
    + constructor; cbn [heap_mgr heap_args trace]; owners_step;
        cbn [is_report is_timer is_destroy is_do_handshake].
      * cbn. lia.
      * cbn. lia.
      * rewrite !tally_app. cbn. lia.
      * rewrite ?tally_app, ?Hq3, ?Hs3. cbn. lia.
      * rewrite added_app, app_nil_r, Hadd. exact Hadded.
      * rewrite added_app, app_nil_r, Hadd.
        split; [exact Hal |]. cbn. split; [lia |]. split; [lia |].
        split; [lia |]. split; [lia |].
        split; [intros _; eexists; split; reflexivity |].
        rewrite teardown_app, Htd. reflexivity.
    + intros m' [= <-]. cbn. lia.
Qed.

Lemma step_report acts m ha t e :
  invariant acts (World (Some m) ha t) ->
  enabled (act_report e) acts (World (Some m) ha t) = true ->
  step_ok acts m ha t (act_report e).
Proof.
  intros [Hch Htm Hsc Harm Hadded Hheap] Hen.
  cbn [heap_mgr heap_args trace] in Hch, Htm, Hsc, Harm, Hheap.
  destruct Hheap as (Hal & Hidx & Hidx1 & Hrefs & Hr1 & Hargs & Htd).
  cbn [enabled trace] in Hen. apply Z.ltb_lt in Hen.
  assert (Hc1 : chain_ref acts t = 1) by lia.
  destruct (Hargs Hc1) as (a & -> & Hu).
  pose proof (caller_ref_range acts) as Hcr.
  pose proof Hal as (Hreg & _). pose proof Hreg as (Hc & _ & _).
  assert (Hcase : (e <> GRPC_ERROR_NONE \/ Mgr.index m = Mgr.count m) \/
                  (e = GRPC_ERROR_NONE /\ Mgr.index m < Mgr.count m)).
  { destruct e as [| code]; [| left; left; discriminate].
    destruct (Z.eq_dec (Mgr.index m) (Mgr.count m)) as [E | E];
      [left; right; exact E | right; split; [reflexivity | lia]]. }
  destruct Hcase as [Hterm | [-> Hmore]].
  - destruct (release_events_quiet (Mgr.refs m =? 1) (added acts))
      as (Hq1 & Hq2 & Hq3 & Hq4).
    eexists. split; [apply (report_terminal _ _ _ _ e Hreg Hu Hidx Hterm) |].
    split.
    + constructor; cbn [heap_mgr heap_args trace]; owners_step;
        rewrite ?tally_app, ?Hq1, ?Hq2, ?Hq3;
        cbn [is_report is_timer is_destroy is_do_handshake].
      * cbn. lia.
      * cbn. lia.
      * cbn. lia.
      * rewrite ?tally_app, ?Hq3, ?Hs3. cbn. lia.
      * rewrite added_app, app_nil_r. exact Hadded.
      * rewrite added_app, app_nil_r, !teardown_app, Htd, Hq4.
        cbn [terminal_events teardown omap is_teardown app].
        rewrite app_nil_r.
        destruct (Z.eqb_spec (Mgr.refs m) 1) as [E | E].
        -- split; [cbn; lia | reflexivity].
        -- split; [exact Hal |]. cbn.
           split; [lia |]. split; [lia |].
           split; [lia |]. split; [lia |].
           split; [intros H; lia | reflexivity].
    + destruct (Mgr.refs m =? 1); intros m' [= <-]. cbn. lia.
  - assert (Hh : exists h, added acts !! Z.to_nat (Mgr.index m) = Some h).
    { apply lookup_lt_is_Some. lia. }
    destruct Hh as (h & Hh).
    eexists. split.
    { apply (report_continue _ _ _ _ h Hreg Hu ltac:(lia) Hh). }
    split.
    + constructor; cbn [heap_mgr heap_args trace]; owners_step;
        cbn [is_report is_timer is_destroy is_do_handshake].
      * cbn. lia.
      * cbn. lia.
      * rewrite !tally_app. cbn. lia.
      * rewrite ?tally_app, ?Hq3, ?Hs3. cbn. lia.
      * rewrite added_app, app_nil_r. exact Hadded.
      * rewrite added_app, app_nil_r.
        split; [exact Hal |]. cbn. split; [lia |]. split; [lia |].
        split; [lia |]. split; [lia |].
        split; [intros _; eexists; split; [reflexivity | exact Hu] |].
        rewrite teardown_app, Htd. reflexivity.
    + intros m' [= <-]. cbn. lia.
Qed.

(** A report either ends the chain, and then the terminal callback is
    scheduled, or starts the next handshaker and moves the cursor by one. *)
Lemma report_outcome acts (m : grpc_handshake_manager) ha t e :
  invariant acts (World (Some m) ha t) ->
  enabled (act_report e) acts (World (Some m) ha t) = true ->
  exists w',
    perform (act_report e) (World (Some m) ha t) = Ok tt w' /\
    if negb (grpc_error_is_none e) || (Mgr.index m =? Mgr.count m)
    then tally is_sched (trace w') = tally is_sched t + 1 /\
         tally is_start (trace w') = tally is_start t
    else tally is_sched (trace w') = tally is_sched t /\
         tally is_start (trace w') = tally is_start t + 1 /\
         exists m', heap_mgr w' = Some m' /\ Mgr.index m' = Mgr.index m + 1.
Proof.
  intros [Hch Htm Hsc Harm Hadded Hheap] Hen.
  cbn [heap_mgr heap_args trace] in Hch, Htm, Hsc, Harm, Hheap.
  destruct Hheap as (Hal & Hidx & Hidx1 & Hrefs & Hr1 & Hargs & Htd).
  cbn [enabled trace] in Hen. apply Z.ltb_lt in Hen.
  assert (Hc1 : chain_ref acts t = 1) by lia.
  destruct (Hargs Hc1) as (a & -> & Hu).
  pose proof Hal as (Hreg & _). pose proof Hreg as (Hc & _ & _).
  destruct (negb (grpc_error_is_none e) || (Mgr.index m =? Mgr.count m)) eqn:Hb.
  - assert (Hterm : e <> GRPC_ERROR_NONE \/ Mgr.index m = Mgr.count m).
    { apply orb_true_iff in Hb as [He | Hi].
      - left. intros ->. discriminate He.
      - right. apply Z.eqb_eq. exact Hi. }
    destruct (release_events_quiet (Mgr.refs m =? 1) (added acts))
      as (Hq1 & Hq2 & Hq3 & Hq4).
    eexists. split; [apply (report_terminal _ _ _ _ e Hreg Hu Hidx Hterm) |].
    cbn [trace]. rewrite !tally_app, Hq1, Hq2. cbn. lia.
  - apply orb_false_iff in Hb as [He Hi].
    destruct e as [| code]; [| discriminate He].
    apply Z.eqb_neq in Hi.
    assert (Hh : exists h, added acts !! Z.to_nat (Mgr.index m) = Some h).
    { apply lookup_lt_is_Some. lia. }
    destruct Hh as (h & Hh).
    eexists. split.
    { apply (report_continue _ _ _ _ h Hreg Hu ltac:(lia) Hh). }
    cbn [trace heap_mgr]. rewrite !tally_app. cbn.
    split; [lia |]. split; [lia |]. eexists. split; reflexivity.
Qed.

Lemma invariant_create w :
  grpc_handshake_manager_create empty_world = Ok tt w -> invariant [] w.
Proof.
  rewrite create_run. intros [= <-].
  constructor; cbn [heap_mgr heap_args trace];
    unfold chain_ref, timer_refs, caller_ref; cbn; try lia.
  - rewrite ADDRESSABLE_HANDSHAKERS_eq. lia.
  - split; [exact create_allocated |].
    repeat split; try lia; intros H; lia.
Qed.

(** Once the manager is freed, none of its users has anything left to do. *)
Lemma freed_nothing_enabled acts ha t a :
  invariant acts (World None ha t) -> enabled a acts (World None ha t) = false.
Proof.
  intros [Hch Htm Hsc Harm Hadded Hheap].
  cbn [heap_mgr heap_args trace] in Hch, Htm, Hheap.
  destruct Hheap as (Hsum & _).
  pose proof (caller_ref_range acts) as Hcr.
  assert (Hcaller : (tally is_destroy acts =? 0) = false).
  { unfold caller_ref in Hsum, Hcr.
    destruct (tally is_destroy acts =? 0); [lia | reflexivity]. }
  destruct a; cbn [enabled heap_mgr trace]; rewrite ?Hcaller; try reflexivity.
  - apply Z.ltb_ge. lia.
  - apply Z.ltb_ge. lia.
Qed.

(** Every enabled action runs to its end without a fault, keeps the
    invariant, and moves neither the cursor nor the count backwards. *)
Lemma invariant_step acts w a :
  invariant acts w ->
  enabled a acts w = true ->
  exists w',
    perform a w = Ok tt w' /\
    invariant (acts ++ [a]) w' /\
    forall m m', heap_mgr w = Some m -> heap_mgr w' = Some m' ->
                 Mgr.index m <= Mgr.index m' /\ Mgr.count m <= Mgr.count m'.
Proof.
  intros Hinv Hen. destruct w as [[m |] ha t].
  - assert (Hok : step_ok acts m ha t a).
    { destruct a.
      + apply step_add; assumption.
      + apply step_do_handshake; assumption.
      + apply step_shutdown; assumption.
      + apply step_destroy; assumption.
      + apply step_report; assumption.
      + apply step_timer; assumption. }
    destruct Hok as (w' & Hrun & Hinv' & Hmono).
    exists w'. split; [exact Hrun |]. split; [exact Hinv' |].
    intros m0 m' [= <-] Hm'. apply Hmono. exact Hm'.
  - rewrite (freed_nothing_enabled acts ha t a Hinv) in Hen. discriminate Hen.
Qed.

Lemma reachable_invariant acts w : reachable acts w -> invariant acts w.
Proof.
  induction 1 as [w Hc | acts w a w' Hreach IH Hen Hrun].
  - apply invariant_create. exact Hc.
  - destruct (invariant_step acts w a IH Hen) as (w'' & Hrun' & Hinv & _).
    rewrite Hrun in Hrun'. injection Hrun' as <-. exact Hinv.
Qed.

(** ** What holds in every world the users can bring about *)

(** Builds the run action by action, evaluating each one. *)
Ltac reach_by_computation :=
  first
    [ apply reach_create; reflexivity
    | eapply reach_step;
      [ reach_by_computation
      | vm_compute; reflexivity
      | vm_compute; reflexivity ] ].

(** When the chain gives up the last reference, call_next_handshaker tears
    the manager down under its own lock: the unlock of the manager's mutex
    is called after the mutex was destroyed and the manager freed. *)
Remark chain_releases_last_under_lock :
  reachable late_chain_acts late_chain_world /\
  heap_mgr late_chain_world = None /\
  exists before,
    trace late_chain_world
    = before ++ [ev_mu_destroy; ev_free_mgr; ev_mu_unlock].
Proof.
  split; [unfold late_chain_acts; reach_by_computation |].
  split; [reflexivity |].
  eexists. unfold late_chain_world. cbn [trace].
  match goal with
  | |- ?t = _ =>
      rewrite <- (take_drop (length t - 3) t); cbn [length Nat.sub take drop]
  end.
  reflexivity.
Qed.

(** C3: in every world the users can bring about, the reference count is
    the sum of what its three owners hold: the caller until it destroys,
    the timer from each arming to the timeout callback, the chain from
    do_handshake to the terminal condition.  While the sum is positive
    nothing is torn down; when it reaches zero the handshakers have been
    destroyed in registration order, the array freed, the lock destroyed
    and the manager freed, once. *)
Theorem references_have_three_owners acts w :
  reachable acts w ->
  0 <= caller_ref acts <= 1 /\
  0 <= timer_refs acts (trace w) <= tally is_do_handshake acts /\
  0 <= chain_ref acts (trace w) <= 1 /\
  match heap_mgr w with
  | Some m =>
      Mgr.refs m = caller_ref acts + timer_refs acts (trace w)
                   + chain_ref acts (trace w) /\
      1 <= Mgr.refs m /\
      teardown (trace w) = []
  | None =>
      caller_ref acts + timer_refs acts (trace w) + chain_ref acts (trace w) = 0 /\
      teardown (trace w) = destroy_events (added acts)
  end.
Proof.
  intros Hreach.
  destruct (reachable_invariant acts w Hreach)
    as [Hch Htm Hsc Harm Hadded Hheap].
  split; [apply caller_ref_range |].
  split.
  { split; [exact Htm |]. unfold timer_refs. rewrite Harm.
    pose proof (tally_nonneg is_timer acts). lia. }
  split; [exact Hch |].
  destruct (heap_mgr w) as [m |].
  - destruct Hheap as (_ & _ & _ & Hrefs & Hr1 & _ & Htd).
    split; [exact Hrefs | split; [exact Hr1 | exact Htd]].
  - exact Hheap.
Qed.

Lemma references_have_three_owners_witness :
  0 <= caller_ref demo_acts <= 1 /\
  0 <= timer_refs demo_acts (trace demo_world) <= tally is_do_handshake demo_acts /\
  0 <= chain_ref demo_acts (trace demo_world) <= 1 /\
  match heap_mgr demo_world with
  | Some m =>
      Mgr.refs m = caller_ref demo_acts + timer_refs demo_acts (trace demo_world)
                   + chain_ref demo_acts (trace demo_world) /\
      1 <= Mgr.refs m /\
      teardown (trace demo_world) = []
  | None =>
      caller_ref demo_acts + timer_refs demo_acts (trace demo_world)
      + chain_ref demo_acts (trace demo_world) = 0 /\
      teardown (trace demo_world) = destroy_events (added demo_acts)
  end.
Proof.
  apply (references_have_three_owners demo_acts demo_world).
  unfold demo_acts. reach_by_computation.
Defined.

(** C5: in every world the users can bring about, the cursor is within the
    handshaker count, so the assertion of the advance step holds, and no
    enabled action fails an assertion; whenever an action returns, the
    cursor has not moved backwards and is still within the count; the
    terminal callbacks scheduled, plus one while a handshaker is in flight,
    are as many as the calls of do_handshake.  Every enabled action other
    than the report that drops the last reference under the lock does
    return, and such a report from the handshaker in flight either ends the
    chain, scheduling the terminal callback, or starts the next handshaker
    and moves the cursor up by one. *)
Theorem cursor_and_terminal_callback acts w :
  reachable acts w ->
  (forall m, heap_mgr w = Some m ->
             0 <= Mgr.index m <= Mgr.count m /\
             GPR_ASSERT (Mgr.index m <=? Mgr.count m) w = Ok tt w) /\
  (forall a, enabled a acts w = true ->
             perform a w <> Crash AssertionFailed) /\
  (forall a w' m m',
     enabled a acts w = true ->
     perform a w = Ok tt w' ->
     heap_mgr w = Some m -> heap_mgr w' = Some m' ->
     Mgr.index m <= Mgr.index m' /\ 0 <= Mgr.index m' <= Mgr.count m') /\
  0 <= chain_ref acts (trace w) <= 1 /\
  tally is_sched (trace w) + chain_ref acts (trace w)
  = tally is_do_handshake acts /\
  (forall a m, heap_mgr w = Some m ->
     enabled a acts w = true ->
     releases_last_under_lock a m = false ->
     exists w', perform a w = Ok tt w') /\
  (forall e m, heap_mgr w = Some m ->
     enabled (act_report e) acts w = true ->
     releases_last_under_lock (act_report e) m = false ->
     exists w',
       perform (act_report e) w = Ok tt w' /\
       if negb (grpc_error_is_none e) || (Mgr.index m =? Mgr.count m)
       then tally is_sched (trace w') = tally is_sched (trace w) + 1 /\
            tally is_start (trace w') = tally is_start (trace w)
       else tally is_sched (trace w') = tally is_sched (trace w) /\
            tally is_start (trace w') = tally is_start (trace w) + 1 /\
            exists m', heap_mgr w' = Some m' /\
                       Mgr.index m' = Mgr.index m + 1).
Proof.
  intros Hreach. pose proof (reachable_invariant acts w Hreach) as Hinv.
  split; [| split; [| split; [| split; [| split; [| split]]]]].
  - intros m Hm. destruct Hinv as [_ _ _ _ _ Hheap]. rewrite Hm in Hheap.
    destruct Hheap as (_ & Hidx & _). split; [exact Hidx |].
    destruct (Z.leb_spec (Mgr.index m) (Mgr.count m)); [reflexivity | lia].
  - intros a Hen.
    destruct (invariant_step acts w a Hinv Hen) as (w' & Hrun & _).
    rewrite Hrun. discriminate.
  - intros a w' m m' Hen Hrun Hm Hm'.
    destruct (invariant_step acts w a Hinv Hen) as (w'' & Hrun' & Hinv' & Hmono).
    rewrite Hrun in Hrun'. injection Hrun' as <-.
    split; [apply (Hmono m m' Hm Hm') |].
    destruct Hinv' as [_ _ _ _ _ Hheap']. rewrite Hm' in Hheap'.
    apply Hheap'.
  - apply Hinv.
  - apply Hinv.
  - intros a m Hm Hen _.
    destruct (invariant_step acts w a Hinv Hen) as (w' & Hrun & _).
    exists w'. exact Hrun.
  - intros e m Hm Hen _. destruct w as [hm ha t]. cbn [heap_mgr] in Hm.
    subst hm. apply (report_outcome acts m ha t e Hinv Hen).
Qed.

Lemma cursor_and_terminal_callback_witness :
  (forall m, heap_mgr mid_chain_world = Some m ->
             0 <= Mgr.index m <= Mgr.count m /\
             GPR_ASSERT (Mgr.index m <=? Mgr.count m) mid_chain_world
             = Ok tt mid_chain_world) /\
  (forall a, enabled a mid_chain_acts mid_chain_world = true ->
             perform a mid_chain_world <> Crash AssertionFailed) /\
  (forall a w' m m',
     enabled a mid_chain_acts mid_chain_world = true ->
     perform a mid_chain_world = Ok tt w' ->
     heap_mgr mid_chain_world = Some m -> heap_mgr w' = Some m' ->
     Mgr.index m <= Mgr.index m' /\ 0 <= Mgr.index m' <= Mgr.count m') /\
  0 <= chain_ref mid_chain_acts (trace mid_chain_world) <= 1 /\
  tally is_sched (trace mid_chain_world)
  + chain_ref mid_chain_acts (trace mid_chain_world)
  = tally is_do_handshake mid_chain_acts /\
  (forall a m, heap_mgr mid_chain_world = Some m ->
     enabled a mid_chain_acts mid_chain_world = true ->
     releases_last_under_lock a m = false ->
     exists w', perform a mid_chain_world = Ok tt w') /\
  (forall e m, heap_mgr mid_chain_world = Some m ->
     enabled (act_report e) mid_chain_acts mid_chain_world = true ->
     releases_last_under_lock (act_report e) m = false ->
     exists w',
       perform (act_report e) mid_chain_world = Ok tt w' /\
       if negb (grpc_error_is_none e) || (Mgr.index m =? Mgr.count m)
       then tally is_sched (trace w') = tally is_sched (trace mid_chain_world) + 1 /\
            tally is_start (trace w') = tally is_start (trace mid_chain_world)
       else tally is_sched (trace w') = tally is_sched (trace mid_chain_world) /\
            tally is_start (trace w') = tally is_start (trace mid_chain_world) + 1 /\
            exists m', heap_mgr w' = Some m' /\
                       Mgr.index m' = Mgr.index m + 1).
Proof.
  apply (cursor_and_terminal_callback mid_chain_acts mid_chain_world).
  unfold mid_chain_acts. reach_by_computation.
Defined.

(** * Further properties of the code *)

(** ** is_power_of_2 *)

(** X1: on a size_t, is_power_of_2 accepts the powers of two and zero, and
    nothing else. *)
Theorem is_power_of_2_accepts n :
  0 <= n < SIZE_MOD ->
  is_power_of_2 n = true <-> n = 0 \/ power_of_two n.
Proof.
  intros Hn. destruct (Z.eq_dec n 0) as [-> | Hne].
  - split; [intros _; left; reflexivity | intros _; reflexivity].
  - rewrite (is_power_of_2_iff n) by lia. unfold power_of_two.
    split; [intros H; right; exact H | intros [H | H]; [lia | exact H]].
Qed.

Lemma is_power_of_2_accepts_witness :
  is_power_of_2 8 = true <-> 8 = 0 \/ power_of_two 8.
Proof.
  apply (is_power_of_2_accepts 8). rewrite SIZE_MOD_eq. lia.
Defined.

(** ** add: the growth of the array, and what add leaves alone *)

Lemma doubling_snoc k : forall s,
  doubling s (S k) = doubling s k ++ [s * 2 ^ Z.of_nat k].
Proof.
  induction k as [| k IH]; intros s.
  - cbn. f_equal. lia.
  - change (doubling s (S (S k))) with (s :: doubling (2 * s) (S k)).
    rewrite IH. cbn [doubling app]. do 3 f_equal.
    rewrite Nat2Z.inj_succ, Z.pow_succ_r by lia. ring.
Qed.

Lemma realloc_rounds_nonneg n : 0 <= realloc_rounds n.
Proof.
  unfold realloc_rounds. destruct (n =? 0); [lia |].
  destruct (n =? 1); [lia | apply Z.log2_up_nonneg].
Qed.

(** One add moves the rounds on exactly when it reallocates, and then to
    the size that is twice the last one. *)
Lemma realloc_rounds_step c :
  0 <= c < ADDRESSABLE_HANDSHAKERS ->
  doubling (2 * sizeof_ptr) (Z.to_nat (realloc_rounds (c + 1)))
  = doubling (2 * sizeof_ptr) (Z.to_nat (realloc_rounds c))
    ++ reallocs (add_events c).
Proof.
  intros Hc. pose proof ADDRESSABLE_HANDSHAKERS_eq as HA.
  pose proof SIZE_MOD_eq as HS.
  unfold add_events. rewrite reallocs_add_events.
  destruct (Z.eq_dec c 0) as [-> | H0]; [reflexivity |].
  destruct (classic_pow2 c) as [[H2 Hp] | Hnp].
  - rewrite (realloc_count_pow2 c) by (try assumption; lia).
    destruct (Z.ltb_spec 0 (2 * c)) as [_ | Hbad]; [| lia].
    destruct Hp as (k & Hk & ->).
    assert (Hk1 : 1 <= k).
    { destruct (Z.eq_dec k 0) as [-> | ]; [cbn in H2; lia | lia]. }
    assert (Hr : realloc_rounds (2 ^ k) = k).
    { unfold realloc_rounds.
      destruct (Z.eqb_spec (2 ^ k) 0) as [E | _]; [lia |].
      destruct (Z.eqb_spec (2 ^ k) 1) as [E | _]; [lia |].
      apply Z.log2_up_pow2. exact Hk. }
    assert (Hr' : realloc_rounds (2 ^ k + 1) = k + 1).
    { unfold realloc_rounds.
      destruct (Z.eqb_spec (2 ^ k + 1) 0) as [E | _]; [lia |].
      destruct (Z.eqb_spec (2 ^ k + 1) 1) as [E | _]; [lia |].
      change (2 ^ k + 1) with (Z.succ (2 ^ k)).
      rewrite Z.log2_up_succ_pow2 by exact Hk. lia. }
    rewrite Hr, Hr'.
    replace (Z.to_nat (k + 1)) with (S (Z.to_nat k)) by lia.
    rewrite doubling_snoc. rewrite Z2Nat.id by lia. f_equal. f_equal.
    unfold size_mul, sizeof_ptr. rewrite size_wrap_small by lia. lia.
  - rewrite (realloc_count_other c) by (try assumption; lia).
    cbn [Z.ltb Z.compare]. rewrite app_nil_r. f_equal. f_equal.
    destruct (Z.eq_dec c 1) as [-> | H1]; [reflexivity |].
    destruct (capacity_after_other c ltac:(lia) Hnp) as [Hcap _].
    unfold capacity_after in Hcap. unfold realloc_rounds.
    destruct (Z.eqb_spec c 0) as [E | _]; [lia |].
    destruct (Z.eqb_spec c 1) as [E | _]; [lia |].
    destruct (Z.eqb_spec (c + 1) 0) as [E | _]; [lia |].
    destruct (Z.eqb_spec (c + 1) 1) as [E | _]; [lia |].
    apply (Z.pow_inj_r 2); [lia | apply Z.log2_up_nonneg
                            | apply Z.log2_up_nonneg | exact Hcap].
Qed.

Lemma reallocs_app t1 t2 : reallocs (t1 ++ t2) = reallocs t1 ++ reallocs t2.
Proof. apply omap_app. Qed.

Lemma add_all_reallocs more :
  forall hs (m : grpc_handshake_manager) a t,
    allocated hs m ->
    Z.of_nat (length (hs ++ more)) <= ADDRESSABLE_HANDSHAKERS ->
    reallocs t = doubling (2 * sizeof_ptr)
                          (Z.to_nat (realloc_rounds (Z.of_nat (length hs)))) ->
    exists m' t',
      add_all more (World (Some m) a t) = Ok tt (World (Some m') a t') /\
      allocated (hs ++ more) m' /\
      reallocs t' = doubling (2 * sizeof_ptr)
                      (Z.to_nat (realloc_rounds
                                   (Z.of_nat (length (hs ++ more))))).
Proof.
  induction more as [| h more IH]; intros hs m a t Hal Hlen Hre.
  - exists m, t. rewrite app_nil_r. split; [reflexivity |]. split; assumption.
  - rewrite length_app in Hlen. cbn [length] in Hlen.
    destruct (add_allocated hs m a t h Hal ltac:(lia)) as [Hrun Hal'].
    pose proof Hal as ((Hc & _ & _) & _).
    fold (add_events (Mgr.count m)) in Hrun.
    destruct (IH (hs ++ [h]) _ a (t ++ add_events (Mgr.count m)) Hal')
      as (m' & t' & Hrun' & Hal'' & Hre').
    { rewrite !length_app. cbn [length]. lia. }
    { rewrite reallocs_app, Hre, Hc, length_app. cbn [length].
      replace (Z.of_nat (length hs + 1)) with (Z.of_nat (length hs) + 1) by lia.
      symmetry. apply realloc_rounds_step. lia. }
    exists m', t'. cbn [add_all]. unfold bind. rewrite Hrun.
    rewrite <- app_assoc in Hal'', Hre'. cbn [app] in Hal'', Hre'.
    split; [exact Hrun' |]. split; assumption.
Qed.

(** X2: n adds on a fresh manager reallocate the array realloc_rounds n
    times (once for n = 1, the rounded-up binary logarithm of n from 2 on),
    to sizes that start at two pointers and double each time. *)
Theorem add_grows_geometrically hs :
  Z.of_nat (length hs) <= ADDRESSABLE_HANDSHAKERS ->
  exists (m : grpc_handshake_manager) t,
    (grpc_handshake_manager_create ;;; add_all hs) empty_world
    = Ok tt (World (Some m) None t) /\
    reallocs t = doubling (2 * sizeof_ptr)
                   (Z.to_nat (realloc_rounds (Z.of_nat (length hs)))) /\
    Z.of_nat (length (reallocs t)) = realloc_rounds (Z.of_nat (length hs)).
Proof.
  intros Hlen. unfold bind. rewrite create_run.
  destruct (add_all_reallocs hs [] (Mgr.set_refs 1 Mgr.zero) None
              [ev_malloc_mgr; ev_mu_init] create_allocated Hlen eq_refl)
    as (m & t & Hrun & _ & Hre).
  exists m, t. split; [exact Hrun |]. split; [exact Hre |].
  rewrite Hre. cbn [app].
  assert (Hd : forall k s, length (doubling s k) = k).
  { induction k as [| k IH]; intros s; [reflexivity |]. cbn. rewrite IH.
    reflexivity. }
  rewrite Hd. apply Z2Nat.id. apply realloc_rounds_nonneg.
Qed.

Lemma add_grows_geometrically_witness :
  exists (m : grpc_handshake_manager) t,
    (grpc_handshake_manager_create ;;; add_all [10; 11; 12; 13; 14]) empty_world
    = Ok tt (World (Some m) None t) /\
    reallocs t = doubling (2 * sizeof_ptr)
                   (Z.to_nat (realloc_rounds
                                (Z.of_nat (length [10; 11; 12; 13; 14])))) /\
    Z.of_nat (length (reallocs t))
    = realloc_rounds (Z.of_nat (length [10; 11; 12; 13; 14])).
Proof.
  apply (add_grows_geometrically [10; 11; 12; 13; 14]).
  vm_compute. discriminate.
Defined.

Lemma shut_down_app t1 t2 : shut_down (t1 ++ t2) = shut_down t1 ++ shut_down t2.
Proof. apply omap_app. Qed.

Lemma add_events_silent c :
  started (add_events c) = [] /\ scheduled (add_events c) = [] /\
  shut_down (add_events c) = [] /\ teardown (add_events c) = [].
Proof. unfold add_events. destruct (0 <? realloc_count_for c); repeat split. Qed.

(** X3: an add whose write falls inside the array changes the count and the
    array and nothing else: cursor, reference count, closures, acceptor,
    timer, user_data and the args stay as they were, and no handshaker is
    started, shut down or destroyed and nothing is scheduled. *)
Theorem add_leaves_the_rest (m : grpc_handshake_manager) a t h :
  Mgr.count m < Z.of_nat (length (grown m)) ->
  exists (m' : grpc_handshake_manager) t',
    grpc_handshake_manager_add h (World (Some m) a t)
    = Ok tt (World (Some m') a t') /\
    Mgr.refs m' = Mgr.refs m /\
    Mgr.index m' = Mgr.index m /\
    Mgr.call_next_handshaker m' = Mgr.call_next_handshaker m /\
    Mgr.acceptor m' = Mgr.acceptor m /\
    Mgr.deadline_timer m' = Mgr.deadline_timer m /\
    Mgr.on_handshake_done m' = Mgr.on_handshake_done m /\
    Mgr.user_data m' = Mgr.user_data m /\
    started (drop (length t) t') = [] /\
    scheduled (drop (length t) t') = [] /\
    shut_down (drop (length t) t') = [] /\
    teardown (drop (length t) t') = [].
Proof.
  intros Hin. eexists _, _. split; [apply (add_run m a t h Hin) |].
  fold (add_events (Mgr.count m)). rewrite drop_app_length.
  destruct (add_events_silent (Mgr.count m)) as (H1 & H2 & H3 & H4).
  cbn. repeat split; assumption.
Qed.

Lemma add_leaves_the_rest_witness :
  exists (m' : grpc_handshake_manager) t',
    grpc_handshake_manager_add 13 (World (Some demo_mgr_mid) None [])
    = Ok tt (World (Some m') None t') /\
    Mgr.refs m' = Mgr.refs demo_mgr_mid /\
    Mgr.index m' = Mgr.index demo_mgr_mid /\
    Mgr.call_next_handshaker m' = Mgr.call_next_handshaker demo_mgr_mid /\
    Mgr.acceptor m' = Mgr.acceptor demo_mgr_mid /\
    Mgr.deadline_timer m' = Mgr.deadline_timer demo_mgr_mid /\
    Mgr.on_handshake_done m' = Mgr.on_handshake_done demo_mgr_mid /\
    Mgr.user_data m' = Mgr.user_data demo_mgr_mid /\
    started (drop (length (@nil event)) t') = [] /\
    scheduled (drop (length (@nil event)) t') = [] /\
    shut_down (drop (length (@nil event)) t') = [] /\
    teardown (drop (length (@nil event)) t') = [].
Proof.
  apply (add_leaves_the_rest demo_mgr_mid None [] 13).
  vm_compute. reflexivity.
Defined.

Lemma started_destroy_events hs : started (destroy_events hs) = [].
Proof.
  unfold destroy_events. rewrite started_app. cbn. rewrite app_nil_r.
  induction hs as [| x l IH]; [reflexivity | exact IH].
Qed.

(** X4: the advance step reads the count when it runs.  A handshaker added
    while the last registered one is in flight is started by the report of
    success that would otherwise have ended the chain. *)
Theorem added_in_flight_is_started hs (m : grpc_handshake_manager) a t h :
  allocated hs m ->
  Z.of_nat (length hs) < ADDRESSABLE_HANDSHAKERS ->
  Mgr.index m = Mgr.count m ->
  Args.user_data a = ptr_mgr ->
  (exists w' (m' : grpc_handshake_manager),
     (grpc_handshake_manager_add h ;;;
      call_next_handshaker ptr_args GRPC_ERROR_NONE)
       (World (Some m) (Some a) t) = Ok tt w' /\
     heap_mgr w' = Some m' /\
     started (drop (length t) (trace w')) = [h] /\
     scheduled (drop (length t) (trace w')) = [] /\
     Mgr.count m' = Mgr.count m + 1 /\
     Mgr.index m' = Mgr.count m') /\
  (exists w'',
     call_next_handshaker ptr_args GRPC_ERROR_NONE (World (Some m) (Some a) t)
     = Ok tt w'' /\
     started (drop (length t) (trace w'')) = [] /\
     scheduled (drop (length t) (trace w''))
     = [(Mgr.on_handshake_done m, GRPC_ERROR_NONE)]).
Proof.
  intros Hal Hlen Hi Hu.
  pose proof Hal as (Hreg & _). pose proof Hreg as (Hc & _ & _).
  split.
  - destruct (add_allocated hs m (Some a) t h Hal Hlen) as [Hrun Hal'].
    fold (add_events (Mgr.count m)) in Hrun.
    destruct Hal' as (Hreg' & _).
    destruct (add_events_silent (Mgr.count m)) as (H1 & H2 & _ & _).
    eexists _, _. split.
    { unfold bind. rewrite Hrun.
      apply (report_continue (hs ++ [h]) _ a _ h Hreg' Hu).
      - cbn. lia.
      - cbn [Mgr.index Mgr.set_count Mgr.set_handshakers]. rewrite Hi, Hc.
        rewrite Nat2Z.id, lookup_app_r by lia. rewrite Nat.sub_diag.
        reflexivity. }
    cbn [heap_mgr trace]. split; [reflexivity |].
    rewrite <- app_assoc, drop_app_length, started_app, scheduled_app, H1, H2.
    cbn. repeat split; lia.
  - eexists. split.
    { apply (report_terminal hs m a t GRPC_ERROR_NONE Hreg Hu); [lia | right; exact Hi]. }
    cbn [trace]. rewrite drop_app_length.
    rewrite !started_app, !scheduled_app.
    assert (Hrel : started (if Mgr.refs m =? 1 then destroy_events hs else []) = []
                   /\ scheduled (if Mgr.refs m =? 1 then destroy_events hs else []) = []).
    { destruct (Mgr.refs m =? 1); [| split; reflexivity].
      split; [apply started_destroy_events | apply scheduled_destroy_events]. }
    destruct Hrel as [-> ->]. split; reflexivity.
Qed.

Lemma added_in_flight_is_started_witness :
  (exists w' (m' : grpc_handshake_manager),
     (grpc_handshake_manager_add 11 ;;;
      call_next_handshaker ptr_args GRPC_ERROR_NONE)
       (World (Some demo_mgr_last) (Some (chain_args 7 [(1, 2)])) []) = Ok tt w' /\
     heap_mgr w' = Some m' /\
     started (drop (length (@nil event)) (trace w')) = [11] /\
     scheduled (drop (length (@nil event)) (trace w')) = [] /\
     Mgr.count m' = Mgr.count demo_mgr_last + 1 /\
     Mgr.index m' = Mgr.count m') /\
  (exists w'',
     call_next_handshaker ptr_args GRPC_ERROR_NONE
       (World (Some demo_mgr_last) (Some (chain_args 7 [(1, 2)])) [])
     = Ok tt w'' /\
     started (drop (length (@nil event)) (trace w'')) = [] /\
     scheduled (drop (length (@nil event)) (trace w''))
     = [(Mgr.on_handshake_done demo_mgr_last, GRPC_ERROR_NONE)]).
Proof.
  apply (added_in_flight_is_started [10] demo_mgr_last (chain_args 7 [(1, 2)])
           [] 11).
  - split; [apply registered_take; reflexivity | reflexivity].
  - vm_compute. reflexivity.
  - reflexivity.
  - reflexivity.
Defined.

(** ** do_handshake and the chain, composed with the other operations *)

(** The world at the end of any chain that runs to its end. *)
Lemma chain_reports_run hs errors (m : grpc_handshake_manager) a0 t ep ca dl
    acc cbk ud :
  registered hs m ->
  Mgr.index m = 0 ->
  1 <= Mgr.refs m ->
  chain_reports hs errors ->
  exists run e,
    (hs <> [] -> run <> []) /\
    (grpc_handshake_manager_do_handshake ep ca dl acc cbk ud ;;;
     report_all errors) (World (Some m) a0 t)
    = Ok tt (World (Some (chain_end m dl acc cbk ud (Z.of_nat (length run))))
                   (Some (Args.set_user_data ud (chain_args ep ca)))
                   (t ++ chain_log dl acc cbk ud (chain_args ep ca) run e)).
Proof.
  intros Hreg Hi Hr Hrep. destruct hs as [| h0 hs'].
  - cbn in Hrep. subst errors. exists [], GRPC_ERROR_NONE.
    split; [intros H; contradiction |].
    cbn [report_all]. unfold bind.
    rewrite (chain_run_empty m a0 t ep ca dl acc cbk ud Hreg Hi Hr).
    reflexivity.
  - destruct Hrep as (k & e & -> & Hk & Hterm).
    exists (h0 :: take k hs'), e. split; [intros _; discriminate |].
    rewrite (chain_run h0 hs' k e m a0 t ep ca dl acc cbk ud Hreg Hi Hr Hk Hterm).
    cbn [length]. rewrite length_take.
    replace (Z.of_nat (S (k `min` length hs'))) with (1 + Z.of_nat k) by lia.
    reflexivity.
Qed.

Lemma do_handshake_needs_cursor_0 (m : grpc_handshake_manager) a0 t ep ca dl
    acc cbk ud :
  Mgr.index m <> 0 ->
  grpc_handshake_manager_do_handshake ep ca dl acc cbk ud (World (Some m) a0 t)
  = Crash AssertionFailed.
Proof.
  intros Hi.
  unfold grpc_handshake_manager_do_handshake, bind, store_args, gpr_mu_lock,
    emit, load_mgr.
  cbn [heap_mgr heap_args trace].
  destruct (Z.eqb_spec (Mgr.index m) 0) as [E | _]; [contradiction | reflexivity].
Qed.

(** X5: once do_handshake has run on a manager that holds a handshaker, a
    second do_handshake fails its assertion, whether the first chain is
    still at its first handshaker or has run to its end. *)
Theorem second_do_handshake_aborts hs errors (m : grpc_handshake_manager) a0 t
    ep ca dl acc cbk ud ep' ca' dl' acc' cbk' ud' :
  registered hs m ->
  hs <> [] ->
  Mgr.index m = 0 ->
  1 <= Mgr.refs m ->
  chain_reports hs errors ->
  (grpc_handshake_manager_do_handshake ep ca dl acc cbk ud ;;;
   grpc_handshake_manager_do_handshake ep' ca' dl' acc' cbk' ud')
    (World (Some m) a0 t) = Crash AssertionFailed /\
  ((grpc_handshake_manager_do_handshake ep ca dl acc cbk ud ;;;
    report_all errors) ;;;
   grpc_handshake_manager_do_handshake ep' ca' dl' acc' cbk' ud')
    (World (Some m) a0 t) = Crash AssertionFailed.
Proof.
  intros Hreg Hne Hi Hr Hrep. split.
  - destruct hs as [| h0 hs']; [contradiction |].
    unfold bind.
    rewrite (do_handshake_first h0 hs' m a0 t ep ca dl acc cbk ud Hreg Hi).
    apply do_handshake_needs_cursor_0. cbn. lia.
  - destruct (chain_reports_run hs errors m a0 t ep ca dl acc cbk ud
                Hreg Hi Hr Hrep) as (run & e & Hrun & Hw).
    unfold bind at 1. rewrite Hw.
    apply do_handshake_needs_cursor_0. cbn.
    specialize (Hrun Hne). destruct run; [contradiction | cbn; lia].
Qed.

Lemma second_do_handshake_aborts_witness :
  (grpc_handshake_manager_do_handshake 7 [(1, 2)] 5 0 (cb_caller 1)
                                       (ptr_opaque 99) ;;;
   grpc_handshake_manager_do_handshake 8 [] 6 0 (cb_caller 2) NULL)
    (World (Some demo_mgr) None []) = Crash AssertionFailed /\
  ((grpc_handshake_manager_do_handshake 7 [(1, 2)] 5 0 (cb_caller 1)
                                        (ptr_opaque 99) ;;;
    report_all [GRPC_ERROR_NONE; GRPC_ERROR 42]) ;;;
   grpc_handshake_manager_do_handshake 8 [] 6 0 (cb_caller 2) NULL)
    (World (Some demo_mgr) None []) = Crash AssertionFailed.
Proof.
  apply (second_do_handshake_aborts [10; 11; 12]
           [GRPC_ERROR_NONE; GRPC_ERROR 42] demo_mgr None []).
  - apply registered_take; reflexivity.
  - discriminate.
  - reflexivity.
  - vm_compute. discriminate.
  - exists 1%nat, (GRPC_ERROR 42). split; [reflexivity |].
    split; [cbn; lia | left; discriminate].
Defined.



(** X7: shutdown leaves no mark on the manager, so it does not end the
    chain by itself: when the handshaker in flight reports success after a
    shutdown, the next handshaker, which was shut down too, is started. *)
Theorem shutdown_does_not_end_chain hs (m : grpc_handshake_manager) a t h :
  registered hs m ->
  0 <= Mgr.index m ->
  hs !! Z.to_nat (Mgr.index m) = Some h ->
  Args.user_data a = ptr_mgr ->
  exists w' (m' : grpc_handshake_manager),
    (grpc_handshake_manager_shutdown ;;;
     call_next_handshaker ptr_args GRPC_ERROR_NONE)
      (World (Some m) (Some a) t) = Ok tt w' /\
    heap_mgr w' = Some m' /\
    trace w' = t ++ shutdown_events hs ++ advance_events m a h /\
    shut_down (drop (length t) (trace w')) = hs /\
    started (drop (length t) (trace w')) = [h] /\
    scheduled (drop (length t) (trace w')) = [] /\
    Mgr.index m' = Mgr.index m + 1.
Proof.
  intros Hreg Hi Hh Hu. eexists _, _. split.
  { unfold bind. rewrite (shutdown_run hs m (Some a) t Hreg).
    apply (report_continue hs m a _ h Hreg Hu Hi Hh). }
  cbn [heap_mgr trace]. split; [reflexivity |].
  rewrite <- app_assoc. split; [reflexivity |].
  rewrite drop_app_length, shut_down_app, started_app, scheduled_app.
  rewrite started_shutdown_events, scheduled_shutdown_events.
  assert (Hsd : shut_down (shutdown_events hs) = hs).
  { unfold shutdown_events. rewrite !shut_down_app. cbn. rewrite app_nil_r.
    clear. induction hs as [| x l IH]; [reflexivity |]. cbn. f_equal. exact IH. }
  rewrite Hsd. cbn. rewrite app_nil_r. repeat split; reflexivity.
Qed.

Lemma shutdown_does_not_end_chain_witness :
  exists w' (m' : grpc_handshake_manager),
    (grpc_handshake_manager_shutdown ;;;
     call_next_handshaker ptr_args GRPC_ERROR_NONE)
      (World (Some demo_mgr_mid) (Some (chain_args 7 [(1, 2)])) []) = Ok tt w' /\
    heap_mgr w' = Some m' /\
    trace w' = [] ++ shutdown_events [10; 11]
                  ++ advance_events demo_mgr_mid (chain_args 7 [(1, 2)]) 11 /\
    shut_down (drop (length (@nil event)) (trace w')) = [10; 11] /\
    started (drop (length (@nil event)) (trace w')) = [11] /\
    scheduled (drop (length (@nil event)) (trace w')) = [] /\
    Mgr.index m' = Mgr.index demo_mgr_mid + 1.
Proof.
  apply (shutdown_does_not_end_chain [10; 11] demo_mgr_mid
           (chain_args 7 [(1, 2)]) [] 11).
  - apply registered_take; reflexivity.
  - vm_compute. discriminate.
  - reflexivity.
  - reflexivity.
Defined.

(** X8: the deadline expires while the first handshaker is in flight.  The
    timeout callback shuts every handshaker down and schedules nothing; the
    error the first handshaker then reports ends the chain: no other
    handshaker is started, the terminal callback is scheduled with that
    error, and of the references only the caller's is left. *)
Theorem deadline_expiry_ends_chain h0 hs' (m : grpc_handshake_manager) a0 t
    ep ca dl acc cbk ud e :
  registered (h0 :: hs') m ->
  Mgr.index m = 0 ->
  1 <= Mgr.refs m ->
  e <> GRPC_ERROR_NONE ->
  exists w' (m' : grpc_handshake_manager),
    ((grpc_handshake_manager_do_handshake ep ca dl acc cbk ud ;;;
      on_timeout ptr_mgr GRPC_ERROR_NONE) ;;;
     call_next_handshaker ptr_args e) (World (Some m) a0 t) = Ok tt w' /\
    heap_mgr w' = Some m' /\
    trace w'
    = t ++ [ev_mu_lock; ev_timer_init dl (Closure cb_on_timeout ptr_mgr);
            ev_handshaker_do_handshake h0 acc
              (Closure cb_call_next_handshaker ptr_args) (chain_args ep ca);
            ev_mu_unlock]
        ++ shutdown_events (h0 :: hs')
        ++ [ev_mu_lock; ev_timer_cancel;
            ev_exec_ctx_sched (Closure cbk ptr_args) e
              (Args.set_user_data ud (chain_args ep ca));
            ev_mu_unlock] /\
    Mgr.refs m' = Mgr.refs m /\
    Mgr.index m' = 1.
Proof.
  intros Hreg Hi Hr He. eexists _, _. split.
  { unfold bind.
    rewrite (do_handshake_first h0 hs' m a0 t ep ca dl acc cbk ud Hreg Hi).
    set (m1 := Mgr.set_index 1 (chain_start m dl acc cbk ud)).
    assert (Hreg1 : registered (h0 :: hs') m1) by exact Hreg.
    rewrite (on_timeout_run (h0 :: hs') m1 _ _ GRPC_ERROR_NONE Hreg1).
    assert (H1 : (Mgr.refs m1 =? 1) = false).
    { apply Z.eqb_neq. subst m1. cbn. lia. }
    rewrite H1. cbn [grpc_error_is_none].
    set (m2 := Mgr.set_refs (Mgr.refs m1 - 1) m1).
    assert (Hreg2 : registered (h0 :: hs') m2) by exact Hreg.
    pose proof Hreg as (Hc & _ & _). cbn [length] in Hc.
    rewrite (report_terminal (h0 :: hs') m2 (chain_args ep ca) _ e Hreg2).
    - assert (H2 : (Mgr.refs m2 =? 1) = false).
      { apply Z.eqb_neq. subst m2 m1. cbn. lia. }
      rewrite H2. reflexivity.
    - reflexivity.
    - subst m2 m1. cbn. lia.
    - left. exact He. }
  cbn [heap_mgr trace]. split; [reflexivity |]. split.
  - rewrite <- !app_assoc. cbn. reflexivity.
  - cbn. split; [lia | reflexivity].
Qed.

Lemma deadline_expiry_ends_chain_witness :
  exists w' (m' : grpc_handshake_manager),
    ((grpc_handshake_manager_do_handshake 7 [(1, 2)] 5 0 (cb_caller 1)
                                          (ptr_opaque 99) ;;;
      on_timeout ptr_mgr GRPC_ERROR_NONE) ;;;
     call_next_handshaker ptr_args (GRPC_ERROR 4))
      (World (Some demo_mgr) None []) = Ok tt w' /\
    heap_mgr w' = Some m' /\
    trace w'
    = [] ++ [ev_mu_lock; ev_timer_init 5 (Closure cb_on_timeout ptr_mgr);
             ev_handshaker_do_handshake 10 0
               (Closure cb_call_next_handshaker ptr_args)
               (chain_args 7 [(1, 2)]);
             ev_mu_unlock]
         ++ shutdown_events (10 :: [11; 12])
         ++ [ev_mu_lock; ev_timer_cancel;
             ev_exec_ctx_sched (Closure (cb_caller 1) ptr_args) (GRPC_ERROR 4)
               (Args.set_user_data (ptr_opaque 99) (chain_args 7 [(1, 2)]));
             ev_mu_unlock] /\
    Mgr.refs m' = Mgr.refs demo_mgr /\
    Mgr.index m' = 1.
Proof.
  apply (deadline_expiry_ends_chain 10 [11; 12] demo_mgr None [] 7 [(1, 2)] 5 0
           (cb_caller 1) (ptr_opaque 99) (GRPC_ERROR 4)).
  - apply registered_take; reflexivity.
  - reflexivity.
  - vm_compute. discriminate.
  - discriminate.
Defined.

Lemma teardown_chain_log dl acc cbk ud a run e :
  teardown (chain_log dl acc cbk ud a run e) = [].
Proof.
  unfold chain_log. destruct run as [| h0 rest]; [reflexivity |].
  rewrite !teardown_app. cbn.
  induction rest as [| h rest IH]; [reflexivity | exact IH].
Qed.

(** X9: a caller that holds the only reference runs a chain to its end;
    then the timer calls back and the caller destroys the manager, in
    either order.  The first of the two tears nothing down, the second
    frees the manager, and the teardown calls made are, once, the destroy
    of each handshaker in registration order, the free of the array, the
    destroy of the lock and the free of the manager. *)
Theorem teardown_once_in_either_order hs errors (m : grpc_handshake_manager)
    a0 t ep ca dl acc cbk ud et :
  registered hs m ->
  Mgr.index m = 0 ->
  Mgr.refs m = 1 ->
  chain_reports hs errors ->
  exists w1 w1' w2 w2',
    ((grpc_handshake_manager_do_handshake ep ca dl acc cbk ud ;;;
      report_all errors) ;;; on_timeout ptr_mgr et) (World (Some m) a0 t)
    = Ok tt w1 /\
    grpc_handshake_manager_destroy w1 = Ok tt w1' /\
    ((grpc_handshake_manager_do_handshake ep ca dl acc cbk ud ;;;
      report_all errors) ;;; grpc_handshake_manager_destroy)
      (World (Some m) a0 t)
    = Ok tt w2 /\
    on_timeout ptr_mgr et w2 = Ok tt w2' /\
    (heap_mgr w1 <> None /\ teardown (drop (length t) (trace w1)) = []) /\
    (heap_mgr w2 <> None /\ teardown (drop (length t) (trace w2)) = []) /\
    (heap_mgr w1' = None /\
     teardown (drop (length t) (trace w1')) = destroy_events hs) /\
    (heap_mgr w2' = None /\
     teardown (drop (length t) (trace w2')) = destroy_events hs).
Proof.
  intros Hreg Hi Hr Hrep.
  destruct (chain_reports_run hs errors m a0 t ep ca dl acc cbk ud
              Hreg Hi ltac:(lia) Hrep) as (run & e & _ & Hw).
  set (mE := chain_end m dl acc cbk ud (Z.of_nat (length run))) in *.
  assert (HregE : registered hs mE) by exact Hreg.
  assert (HrE : (Mgr.refs mE =? 1) = false).
  { apply Z.eqb_neq. subst mE. cbn. lia. }
  set (m1 := Mgr.set_refs (Mgr.refs mE - 1) mE).
  assert (Hreg1 : registered hs m1) by exact Hreg.
  assert (Hr1 : (Mgr.refs m1 =? 1) = true).
  { apply Z.eqb_eq. subst m1 mE. cbn. lia. }
  assert (Hquiet : teardown (if grpc_error_is_none et
                             then shutdown_events hs else []) = []).
  { destruct (grpc_error_is_none et); [apply teardown_shutdown_events | reflexivity]. }
  eexists _, _, _, _.
  split.
  { unfold bind at 1. rewrite Hw.
    rewrite (on_timeout_run hs mE _ _ et HregE), HrE. reflexivity. }
  split.
  { unfold grpc_handshake_manager_destroy.
    fold m1. rewrite (unref_run hs m1 _ _ Hreg1), Hr1. reflexivity. }
  split.
  { unfold bind at 1. rewrite Hw. unfold grpc_handshake_manager_destroy.
    rewrite (unref_run hs mE _ _ HregE), HrE. reflexivity. }
  split.
  { fold m1. rewrite (on_timeout_run hs m1 _ _ et Hreg1), Hr1. reflexivity. }
  cbn [heap_mgr trace].
  rewrite <- !app_assoc, !drop_app_length, !teardown_app.
  rewrite teardown_chain_log, Hquiet, teardown_destroy_events. cbn [app].
  repeat split; try discriminate; try reflexivity.
Qed.

Lemma teardown_once_in_either_order_witness :
  exists w1 w1' w2 w2',
    ((grpc_handshake_manager_do_handshake 7 [(1, 2)] 5 0 (cb_caller 1)
                                          (ptr_opaque 99) ;;;
      report_all [GRPC_ERROR_NONE; GRPC_ERROR 42]) ;;;
     on_timeout ptr_mgr (GRPC_ERROR 1)) (World (Some demo_mgr) None [])
    = Ok tt w1 /\
    grpc_handshake_manager_destroy w1 = Ok tt w1' /\
    ((grpc_handshake_manager_do_handshake 7 [(1, 2)] 5 0 (cb_caller 1)
                                          (ptr_opaque 99) ;;;
      report_all [GRPC_ERROR_NONE; GRPC_ERROR 42]) ;;;
     grpc_handshake_manager_destroy) (World (Some demo_mgr) None [])
    = Ok tt w2 /\
    on_timeout ptr_mgr (GRPC_ERROR 1) w2 = Ok tt w2' /\
    (heap_mgr w1 <> None /\
     teardown (drop (length (@nil event)) (trace w1)) = []) /\
    (heap_mgr w2 <> None /\
     teardown (drop (length (@nil event)) (trace w2)) = []) /\
    (heap_mgr w1' = None /\
     teardown (drop (length (@nil event)) (trace w1'))
     = destroy_events [10; 11; 12]) /\
    (heap_mgr w2' = None /\
     teardown (drop (length (@nil event)) (trace w2'))
     = destroy_events [10; 11; 12]).
Proof.
  apply (teardown_once_in_either_order [10; 11; 12]
           [GRPC_ERROR_NONE; GRPC_ERROR 42] demo_mgr None [] 7 [(1, 2)] 5 0
           (cb_caller 1) (ptr_opaque 99) (GRPC_ERROR 1)).
  - apply registered_take; reflexivity.
  - reflexivity.
  - reflexivity.
  - exists 1%nat, (GRPC_ERROR 42). split; [reflexivity |].
    split; [cbn; lia | left; discriminate].
Defined.

Lemma handed_chain_log dl acc cbk ud a run e :
  handed (chain_log dl acc cbk ud a run e)
  = repeat (acc, Closure cb_call_next_handshaker ptr_args) (length run).
Proof.
  unfold chain_log, handed. destruct run as [| h0 rest]; [reflexivity |].
  rewrite !omap_app. cbn. rewrite app_nil_r. f_equal.
  induction rest as [| h rest IH]; [reflexivity |]. cbn. f_equal. exact IH.
Qed.

(** X10: in a chain that runs to its end, every handshaker that is started
    is handed the acceptor that do_handshake was called with, and the same
    closure: call_next_handshaker on the args. *)
Theorem acceptor_handed_to_every_handshaker hs errors
    (m : grpc_handshake_manager) a0 t ep ca dl acc cbk ud :
  registered hs m ->
  Mgr.index m = 0 ->
  1 <= Mgr.refs m ->
  chain_reports hs errors ->
  exists w',
    (grpc_handshake_manager_do_handshake ep ca dl acc cbk ud ;;;
     report_all errors) (World (Some m) a0 t) = Ok tt w' /\
    handed (drop (length t) (trace w'))
    = repeat (acc, Closure cb_call_next_handshaker ptr_args)
             (length (started (drop (length t) (trace w')))).
Proof.
  intros Hreg Hi Hr Hrep.
  destruct (chain_reports_run hs errors m a0 t ep ca dl acc cbk ud
              Hreg Hi Hr Hrep) as (run & e & _ & Hw).
  eexists. split; [exact Hw |]. cbn [trace].
  rewrite drop_app_length, handed_chain_log, started_chain_log. reflexivity.
Qed.

Lemma acceptor_handed_to_every_handshaker_witness :
  exists w',
    (grpc_handshake_manager_do_handshake 7 [(1, 2)] 5 3 (cb_caller 1)
                                         (ptr_opaque 99) ;;;
     report_all [GRPC_ERROR_NONE; GRPC_ERROR_NONE; GRPC_ERROR_NONE])
      (World (Some demo_mgr) None []) = Ok tt w' /\
    handed (drop (length (@nil event)) (trace w'))
    = repeat (3, Closure cb_call_next_handshaker ptr_args)
             (length (started (drop (length (@nil event)) (trace w')))).
Proof.
  apply (acceptor_handed_to_every_handshaker [10; 11; 12]
           [GRPC_ERROR_NONE; GRPC_ERROR_NONE; GRPC_ERROR_NONE] demo_mgr None []
           7 [(1, 2)] 5 3 (cb_caller 1) (ptr_opaque 99)).
  - apply registered_take; reflexivity.
  - reflexivity.
  - vm_compute. discriminate.
  - exists 2%nat, GRPC_ERROR_NONE. split; [reflexivity |].
    split; [cbn; lia | right; reflexivity].
Defined.

(** X11: whatever the handshaker in flight has left in the args (endpoint,
    channel args, read buffer), a report passes it on untouched: the one
    args record that leaves the manager, to the next handshaker or with the
    terminal callback, and the record kept, differ from it in the user_data
    at most. *)
Theorem report_passes_args_on hs (m : grpc_handshake_manager) a t e :
  registered hs m ->
  Args.user_data a = ptr_mgr ->
  0 <= Mgr.index m <= Mgr.count m ->
  exists w' a' seen,
    call_next_handshaker ptr_args e (World (Some m) (Some a) t) = Ok tt w' /\
    heap_args w' = Some a' /\
    args_seen (drop (length t) (trace w')) = [seen] /\
    Args.endpoint a' = Args.endpoint a /\
    Args.args a' = Args.args a /\
    Args.read_buffer a' = Args.read_buffer a /\
    Args.endpoint seen = Args.endpoint a /\
    Args.args seen = Args.args a /\
    Args.read_buffer seen = Args.read_buffer a /\
    seen = a'.
Proof.
  intros Hreg Hu Hidx. pose proof Hreg as (Hc & _ & _).
  assert (Hcase : (e <> GRPC_ERROR_NONE \/ Mgr.index m = Mgr.count m) \/
                  (e = GRPC_ERROR_NONE /\ Mgr.index m < Mgr.count m)).
  { destruct e as [| code]; [| left; left; discriminate].
    destruct (Z.eq_dec (Mgr.index m) (Mgr.count m)) as [E | E];
      [left; right; exact E | right; split; [reflexivity | lia]]. }
  destruct Hcase as [Hterm | [-> Hmore]].
  - eexists _, _, _. split.
    { apply (report_terminal hs m a t e Hreg Hu Hidx Hterm). }
    cbn [heap_args trace]. split; [reflexivity |].
    rewrite drop_app_length. unfold args_seen. rewrite !omap_app.
    assert (Hrel : omap (fun ev => match ev with
                     | ev_handshaker_do_handshake _ _ _ a1 => Some a1
                     | ev_exec_ctx_sched _ _ a1 => Some a1
                     | _ => None
                     end) (if Mgr.refs m =? 1 then destroy_events hs else [])
                   = []).
    { destruct (Mgr.refs m =? 1); [| reflexivity].
      unfold destroy_events. rewrite omap_app. cbn. rewrite app_nil_r.
      clear. induction hs as [| x l IH]; [reflexivity | exact IH]. }
    rewrite Hrel. cbn. repeat split; reflexivity.
  - assert (Hh : exists h, hs !! Z.to_nat (Mgr.index m) = Some h).
    { apply lookup_lt_is_Some. lia. }
    destruct Hh as (h & Hh).
    eexists _, _, _. split.
    { apply (report_continue hs m a t h Hreg Hu ltac:(lia) Hh). }
    cbn [heap_args trace]. split; [reflexivity |].
    rewrite drop_app_length. cbn. repeat split; reflexivity.
Qed.

Lemma report_passes_args_on_witness :
  exists w' a' seen,
    call_next_handshaker ptr_args GRPC_ERROR_NONE
      (World (Some demo_mgr_mid)
             (Some (Args.Build 70 [(1, 3); (4, 5)] [8; 9] ptr_mgr)) [])
    = Ok tt w' /\
    heap_args w' = Some a' /\
    args_seen (drop (length (@nil event)) (trace w')) = [seen] /\
    Args.endpoint a' = Args.endpoint (Args.Build 70 [(1, 3); (4, 5)] [8; 9] ptr_mgr) /\
    Args.args a' = Args.args (Args.Build 70 [(1, 3); (4, 5)] [8; 9] ptr_mgr) /\
    Args.read_buffer a'
    = Args.read_buffer (Args.Build 70 [(1, 3); (4, 5)] [8; 9] ptr_mgr) /\
    Args.endpoint seen = Args.endpoint (Args.Build 70 [(1, 3); (4, 5)] [8; 9] ptr_mgr) /\
    Args.args seen = Args.args (Args.Build 70 [(1, 3); (4, 5)] [8; 9] ptr_mgr) /\
    Args.read_buffer seen
    = Args.read_buffer (Args.Build 70 [(1, 3); (4, 5)] [8; 9] ptr_mgr) /\
    seen = a'.
Proof.
  apply (report_passes_args_on [10; 11] demo_mgr_mid
           (Args.Build 70 [(1, 3); (4, 5)] [8; 9] ptr_mgr) [] GRPC_ERROR_NONE).
  - apply registered_take; reflexivity.
  - reflexivity.
  - vm_compute. split; discriminate.
Defined.

(** X12: when the report that ends the chain gives up the last reference,
    the manager is torn down inside call_next_handshaker, under the lock
    that call_next_handshaker took: the calls end with the destroy of the
    mutex, the free of the manager, and then the unlock of that mutex. *)
Theorem last_reference_dropped_under_lock hs (m : grpc_handshake_manager)
    a t e :
  registered hs m ->
  Args.user_data a = ptr_mgr ->
  0 <= Mgr.index m <= Mgr.count m ->
  e <> GRPC_ERROR_NONE \/ Mgr.index m = Mgr.count m ->
  Mgr.refs m = 1 ->
  exists w' before,
    call_next_handshaker ptr_args e (World (Some m) (Some a) t) = Ok tt w' /\
    heap_mgr w' = None /\
    trace w' = before ++ [ev_mu_destroy; ev_free_mgr; ev_mu_unlock] /\
    tally (fun ev => match ev with ev_mu_lock => true | _ => false end)
          (drop (length t) (trace w')) = 1 /\
    scheduled (drop (length t) (trace w')) = [(Mgr.on_handshake_done m, e)].
Proof.
  intros Hreg Hu Hidx Hterm Hr.
  assert (Hr1 : (Mgr.refs m =? 1) = true) by (apply Z.eqb_eq; exact Hr).
  eexists _, (t ++ [ev_mu_lock] ++ terminal_events m a e
                ++ map ev_handshaker_destroy hs ++ [ev_free_handshakers]).
  split.
  { rewrite (report_terminal hs m a t e Hreg Hu Hidx Hterm), Hr1. reflexivity. }
  cbn [heap_mgr trace]. split; [reflexivity |]. split.
  - unfold destroy_events. rewrite <- !app_assoc. reflexivity.
  - rewrite drop_app_length, !tally_app, !scheduled_app.
    rewrite scheduled_destroy_events.
    rewrite tally_destroy_events by reflexivity. split; reflexivity.
Qed.

Lemma last_reference_dropped_under_lock_witness :
  exists w' before,
    call_next_handshaker ptr_args (GRPC_ERROR 4)
      (World (Some demo_mgr) (Some (chain_args 7 [(1, 2)])) []) = Ok tt w' /\
    heap_mgr w' = None /\
    trace w' = before ++ [ev_mu_destroy; ev_free_mgr; ev_mu_unlock] /\
    tally (fun ev => match ev with ev_mu_lock => true | _ => false end)
          (drop (length (@nil event)) (trace w')) = 1 /\
    scheduled (drop (length (@nil event)) (trace w'))
    = [(Mgr.on_handshake_done demo_mgr, GRPC_ERROR 4)].
Proof.
  apply (last_reference_dropped_under_lock [10; 11; 12] demo_mgr
           (chain_args 7 [(1, 2)]) [] (GRPC_ERROR 4)).
  - apply registered_take; reflexivity.
  - reflexivity.
  - vm_compute. split; discriminate.
  - left. discriminate.
  - reflexivity.
Defined.

(** X13: when the chain has ended, the user_data of the args is the
    caller's again.  Unless that is the manager itself, one more call of
    the advance closure does not find the manager through the args: the
    run stops with a bad-pointer fault. *)
Theorem report_after_end_finds_no_manager hs errors
    (m : grpc_handshake_manager) a0 t ep ca dl acc cbk ud e :
  registered hs m ->
  Mgr.index m = 0 ->
  1 <= Mgr.refs m ->
  chain_reports hs errors ->
  ud <> ptr_mgr ->
  ((grpc_handshake_manager_do_handshake ep ca dl acc cbk ud ;;;
    report_all errors) ;;; call_next_handshaker ptr_args e)
    (World (Some m) a0 t) = Crash BadPointer.
Proof.
  intros Hreg Hi Hr Hrep Hud.
  destruct (chain_reports_run hs errors m a0 t ep ca dl acc cbk ud
              Hreg Hi Hr Hrep) as (run & e' & _ & Hw).
  unfold bind at 1. rewrite Hw.
  unfold call_next_handshaker, bind, load_args. cbn.
  destruct ud; [reflexivity | contradiction | reflexivity | reflexivity].
Qed.

Lemma report_after_end_finds_no_manager_witness :
  ((grpc_handshake_manager_do_handshake 7 [(1, 2)] 5 0 (cb_caller 1)
                                        (ptr_opaque 99) ;;;
    report_all [GRPC_ERROR 42]) ;;;
   call_next_handshaker ptr_args GRPC_ERROR_NONE)
    (World (Some demo_mgr) None []) = Crash BadPointer.
Proof.
  apply (report_after_end_finds_no_manager [10; 11; 12] [GRPC_ERROR 42]
           demo_mgr None [] 7 [(1, 2)] 5 0 (cb_caller 1) (ptr_opaque 99)
           GRPC_ERROR_NONE).
  - apply registered_take; reflexivity.
  - reflexivity.
  - vm_compute. discriminate.
  - exists 0%nat, (GRPC_ERROR 42). split; [reflexivity |].
    split; [cbn; lia | left; discriminate].
  - discriminate.
Defined.

(** ** create, add and destroy without a handshake *)

Lemma bind_Ok {A B} (c : M A) (k : A -> M B) w a w' :
  c w = Ok a w' -> bind c k w = k a w'.
Proof. intros H. unfold bind. rewrite H. reflexivity. Qed.

Lemma add_all_silent more :
  forall hs (m : grpc_handshake_manager) a t,
    allocated hs m ->
    Z.of_nat (length (hs ++ more)) <= ADDRESSABLE_HANDSHAKERS ->
    exists m' t',
      add_all more (World (Some m) a t) = Ok tt (World (Some m') a (t ++ t')) /\
      allocated (hs ++ more) m' /\
      Mgr.refs m' = Mgr.refs m /\
      started t' = [] /\ scheduled t' = [] /\
      shut_down t' = [] /\ teardown t' = [].
Proof.
  induction more as [| h more IH]; intros hs m a t Hal Hlen.
  - exists m, []. rewrite !app_nil_r. repeat split; try reflexivity; apply Hal.
  - rewrite length_app in Hlen. cbn [length] in Hlen.
    destruct (add_allocated hs m a t h Hal ltac:(lia)) as [Hrun Hal'].
    fold (add_events (Mgr.count m)) in Hrun.
    destruct (add_events_silent (Mgr.count m)) as (H1 & H2 & H3 & H4).
    destruct (IH (hs ++ [h]) _ a (t ++ add_events (Mgr.count m)) Hal')
      as (m' & t' & Hrun' & Hal'' & Hrefs & H1' & H2' & H3' & H4').
    { rewrite !length_app. cbn [length]. lia. }
    exists m', (add_events (Mgr.count m) ++ t').
    rewrite <- app_assoc in Hal''. cbn [app] in Hal''.
    rewrite started_app, scheduled_app, shut_down_app, teardown_app.
    rewrite H1, H2, H3, H4, H1', H2', H3', H4'.
    split.
    { cbn [add_all]. unfold bind. rewrite Hrun.
      etransitivity; [exact Hrun' |]. rewrite <- app_assoc. reflexivity. }
    split; [exact Hal'' |]. split; [exact Hrefs |].
    repeat split; reflexivity.
Qed.

(** X14: a manager that was created, given its handshakers and destroyed
    without any handshake destroys each of them, in the order they were
    added, then frees the array, destroys the lock and frees itself; up to
    then no handshaker was started or shut down and nothing was
    scheduled. *)
Theorem unused_manager_destroys_its_handshakers hs :
  Z.of_nat (length hs) <= ADDRESSABLE_HANDSHAKERS ->
  exists t,
    ((grpc_handshake_manager_create ;;; add_all hs) ;;;
     grpc_handshake_manager_destroy) empty_world
    = Ok tt (World None None t) /\
    teardown t = destroy_events hs /\
    started t = [] /\
    scheduled t = [] /\
    shut_down t = [].
Proof.
  intros Hlen.
  destruct (add_all_silent hs [] (Mgr.set_refs 1 Mgr.zero) None
              [ev_malloc_mgr; ev_mu_init] create_allocated Hlen)
    as (m & t' & Hrun & Hal & Hrefs & H1 & H2 & H3 & H4).
  cbn [app] in Hal. destruct Hal as (Hreg & _).
  exists ([ev_malloc_mgr; ev_mu_init] ++ t' ++ destroy_events hs). split.
  { rewrite (bind_Ok (grpc_handshake_manager_create ;;; add_all hs) _ _ tt
               (World (Some m) None ([ev_malloc_mgr; ev_mu_init] ++ t'))).
    - unfold grpc_handshake_manager_destroy.
      rewrite (unref_run hs m _ _ Hreg), Hrefs. reflexivity.
    - rewrite (bind_Ok _ _ _ _ _ create_run). exact Hrun. }
  rewrite !teardown_app, !started_app, !scheduled_app, !shut_down_app.
  rewrite H1, H2, H3, H4, teardown_destroy_events, started_destroy_events,
    scheduled_destroy_events.
  assert (Hsd : shut_down (destroy_events hs) = []).
  { unfold destroy_events. rewrite shut_down_app. cbn. rewrite app_nil_r.
    clear. induction hs as [| x l IH]; [reflexivity | exact IH]. }
  rewrite Hsd. repeat split; reflexivity.
Qed.

Lemma unused_manager_destroys_its_handshakers_witness :
  exists t,
    ((grpc_handshake_manager_create ;;; add_all [10; 11; 12]) ;;;
     grpc_handshake_manager_destroy) empty_world
    = Ok tt (World None None t) /\
    teardown t = destroy_events [10; 11; 12] /\
    started t = [] /\
    scheduled t = [] /\
    shut_down t = [].
Proof.
  apply (unused_manager_destroys_its_handshakers [10; 11; 12]).
  vm_compute. discriminate.
Defined.
